(** * minimalist-todo-dash: the task list of [src/components/TodoApp.tsx]

    The component keeps four pieces of React state (the task array, the text
    of the "new task" input, and the id and text of the edit in progress) and
    changes them from event handlers.  Each handler is embedded as a function
    from the state of the current render to the next state, together with the
    toasts it raises.  The two [useEffect] blocks that read and write
    [localStorage] are embedded over an explicit storage map. *)

From Stdlib Require Import ZArith NArith Ascii String List Lia.
From stdpp Require Import base option list numbers strings pretty gmap.

Set Warnings "-register-all".
Local Open Scope Z_scope.

(** ** JavaScript strings

    A JavaScript string is a sequence of UTF-16 code units. *)

Abbreviation jsstring := (list N).

(** The code units of an ASCII literal. *)
Definition js (s : string) : jsstring :=
  N_of_ascii <$> list_ascii_of_string s.

(** [WhiteSpace] and [LineTerminator] of ECMAScript: the code points that
    [String.prototype.trim] strips. *)
Definition is_white_space (c : N) : bool :=
  ((c =? 0x09) || (c =? 0x0A) || (c =? 0x0B) || (c =? 0x0C) || (c =? 0x0D)
   || (c =? 0x20) || (c =? 0xA0) || (c =? 0x1680)
   || ((0x2000 <=? c) && (c <=? 0x200A))
   || (c =? 0x2028) || (c =? 0x2029) || (c =? 0x202F) || (c =? 0x205F)
   || (c =? 0x3000) || (c =? 0xFEFF))%N.

Fixpoint trimStart (s : jsstring) : jsstring :=
  match s with
  | c :: r => if is_white_space c then trimStart r else s
  | [] => []
  end.

Definition trimEnd (s : jsstring) : jsstring := rev (trimStart (rev s)).

(** [s.trim()] *)
Definition trim (s : jsstring) : jsstring := trimEnd (trimStart s).

(** [ToBoolean] of a string: every string but the empty one is truthy. *)
Definition truthy (s : jsstring) : bool :=
  match s with [] => false | _ :: _ => true end.

(** [ToBoolean] of a [string | null]. *)
Definition truthy_opt (o : option jsstring) : bool :=
  match o with Some s => truthy s | None => false end.

(** [n.toString()] for an integral Number: [Date.now()] is an integer of
    magnitude at most 8.64e15, where [Number.prototype.toString] is the plain
    decimal rendering, with a leading minus sign below zero. *)
Definition Number_toString (n : Z) : jsstring := js (pretty n).

(** ** Dates

    A [Date] object holds a time value: an integral number of milliseconds
    since the epoch, or [NaN] (an "Invalid Date"). *)
Inductive Date : Type :=
  | DateAt (tv : Z)
  | InvalidDate.

(** ** Tasks *)

Record Task : Type := mkTask {
  id : jsstring;
  text : jsstring;
  completed : bool;
  createdAt : Date;
}.

(** [{ ...task, completed: c }] and [{ ...task, text: x }] *)
Definition with_completed (c : bool) (task : Task) : Task :=
  {| id := id task; text := text task; completed := c;
     createdAt := createdAt task |}.

Definition with_text (x : jsstring) (task : Task) : Task :=
  {| id := id task; text := x; completed := completed task;
     createdAt := createdAt task |}.

(** The argument of a [toast] call. *)
Record Toast : Type := mkToast {
  title : jsstring;
  description : jsstring;
  variant : option jsstring;
}.

(** ** The component *)

Module TodoApp.

(** The four [useState] cells. *)
Record State : Type := mkState {
  tasks : list Task;
  newTaskText : jsstring;
  editingId : option jsstring;
  editingText : jsstring;
}.

(** State of the first render. *)
Definition initial : State :=
  {| tasks := []; newTaskText := []; editingId := None; editingText := [] |}.

Definition setTasks (l : list Task) (s : State) : State :=
  {| tasks := l; newTaskText := newTaskText s; editingId := editingId s;
     editingText := editingText s |}.

Definition setNewTaskText (x : jsstring) (s : State) : State :=
  {| tasks := tasks s; newTaskText := x; editingId := editingId s;
     editingText := editingText s |}.

Definition setEditingId (o : option jsstring) (s : State) : State :=
  {| tasks := tasks s; newTaskText := newTaskText s; editingId := o;
     editingText := editingText s |}.

Definition setEditingText (x : jsstring) (s : State) : State :=
  {| tasks := tasks s; newTaskText := newTaskText s;
     editingId := editingId s; editingText := x |}.

(** A handler reads the state of the render it was created in and returns
    the state after its setter calls, with the toasts it raised. *)
Definition Handler : Type := State → State * list Toast.

Definition toast_added : Toast :=
  {| title := js "Task added";
     description := js "Your new task has been added successfully.";
     variant := None |}.

Definition toast_deleted : Toast :=
  {| title := js "Task deleted";
     description := js "Task has been removed from your list.";
     variant := Some (js "destructive") |}.

Definition toast_updated : Toast :=
  {| title := js "Task updated";
     description := js "Your task has been updated successfully.";
     variant := None |}.

(** [addTask]: the clock is read twice, by [Date.now()] for the id and by
    [new Date()] for the creation time, and only when the guard passes. *)
Definition addTask (now_id now_created : Z) : Handler := λ s,
  if truthy (trim (newTaskText s)) then
    let newTask :=
      {| id := Number_toString now_id;
         text := trim (newTaskText s);
         completed := false;
         createdAt := DateAt now_created |} in
    (setNewTaskText [] (setTasks (newTask :: tasks s) s), [toast_added])
  else (s, []).

Definition toggleTask (i : jsstring) : Handler := λ s,
  (setTasks
     ((λ task, if decide (id task = i)
               then with_completed (negb (completed task)) task
               else task) <$> tasks s) s,
   []).

Definition deleteTask (i : jsstring) : Handler := λ s,
  (setTasks (filter (λ task, id task ≠ i) (tasks s)) s, [toast_deleted]).

Definition startEditing (i x : jsstring) : Handler := λ s,
  (setEditingText x (setEditingId (Some i) s), []).

Definition saveEdit : Handler := λ s,
  if truthy (trim (editingText s)) && truthy_opt (editingId s) then
    (setEditingText []
       (setEditingId None
          (setTasks
             ((λ task, if decide (Some (id task) = editingId s)
                       then with_text (trim (editingText s)) task
                       else task) <$> tasks s) s)),
     [toast_updated])
  else (s, []).

Definition cancelEdit : Handler := λ s,
  (setEditingText [] (setEditingId None s), []).

(** [completedTasks] and [pendingTasks], recomputed on every render. *)
Definition completedTasks (s : State) : list Task :=
  filter (λ task, completed task = true) (tasks s).

Definition pendingTasks (s : State) : list Task :=
  filter (λ task, completed task ≠ true) (tasks s).

(** What the user can do to the rendered component.  [AddTask] carries the
    two clock readings the handler would take. *)
Inductive Event : Type :=
  | TypeNewTask (x : jsstring)
  | AddTask (now_id now_created : Z)
  | ToggleTask (i : jsstring)
  | DeleteTask (i : jsstring)
  | StartEditing (i x : jsstring)
  | TypeEditing (x : jsstring)
  | SaveEdit
  | CancelEdit.

Definition handle (e : Event) : Handler :=
  match e with
  | TypeNewTask x => λ s, (setNewTaskText x s, [])
  | AddTask n c => addTask n c
  | ToggleTask i => toggleTask i
  | DeleteTask i => deleteTask i
  | StartEditing i x => startEditing i x
  | TypeEditing x => λ s, (setEditingText x s, [])
  | SaveEdit => saveEdit
  | CancelEdit => cancelEdit
  end.

Definition step (e : Event) (s : State) : State := (handle e s).1.

(** The state after a sequence of events, one render per event: each event
    goes to the handler of the latest render.  This is the component as long
    as the ids in the store are pairwise distinct.  The cards are rendered
    under [key={task.id}]; under a repeated key React can keep a card of an
    earlier render, whose buttons call the handlers of that render, and [run]
    does not follow such a card.  What is stated of a run is stated of runs
    that keep the ids distinct, or is kept by every handler on every state. *)
Definition run (es : list Event) (s : State) : State :=
  foldl (λ s e, step e s) s es.

(** The reading of [Date.now()] that an event turns into an id: only an add
    that passes its guard makes one. *)
Definition makes_id (e : Event) (s : State) : option Z :=
  match e with
  | AddTask n _ => if truthy (trim (newTaskText s)) then Some n else None
  | _ => None
  end.

(** The readings of [Date.now()] that were turned into ids along a run, the
    earliest first. *)
Fixpoint id_clock (es : list Event) (s : State) : list Z :=
  match es with
  | [] => []
  | e :: es' =>
      match makes_id e s with
      | Some n => n :: id_clock es' (step e s)
      | None => id_clock es' (step e s)
      end
  end.

End TodoApp.

Import TodoApp.

(** The spec's [add(text)]: type the text, then press Add. *)
Definition add (x : jsstring) (now_id now_created : Z) (s : State) : State :=
  run [TypeNewTask x; AddTask now_id now_created] s.

(** The spec's [commitEdit(newText)]: type the text in the edit box, then
    press Save. *)
Definition commitEdit (x : jsstring) (s : State) : State :=
  run [TypeEditing x; SaveEdit] s.

(** A string without white space at either end. *)
Definition no_lead (s : jsstring) : Prop :=
  match s with c :: _ => is_white_space c = false | [] => True end.

(** A text as [addTask] and [saveEdit] store it: not empty, and with no white
    space left to trim. *)
Definition kept_text (x : jsstring) : Prop := x ≠ [] ∧ trim x = x.

Definition is_delete (e : Event) : bool :=
  match e with DeleteTask _ => true | _ => false end.

(** ** What the component renders *)

(** One card of the task list: the edit box with Save and Cancel, or the text
    with the Edit and Delete buttons.  The key is the id of the task, which
    the toggle button of either card passes to [toggleTask]. *)
Inductive Row : Type :=
  | EditRow (key : jsstring) (checked : bool) (value : jsstring)
  | ShowRow (key : jsstring) (checked : bool) (label : jsstring).

Definition row_key (r : Row) : jsstring :=
  match r with EditRow k _ _ | ShowRow k _ _ => k end.

Record View : Type := mkView {
  (** [disabled] of the Add button *)
  addDisabled : bool;
  (** Total, Pending and Done; not rendered for an empty task array *)
  statistics : option (nat * nat * nat);
  (** the cards; with none, the "No tasks yet" card is rendered *)
  rows : list Row;
}.

Definition render_row (s : State) (task : Task) : Row :=
  if decide (editingId s = Some (id task))
  then EditRow (id task) (completed task) (editingText s)
  else ShowRow (id task) (completed task) (text task).

Definition render (s : State) : View :=
  {| addDisabled := negb (truthy (trim (newTaskText s)));
     statistics :=
       if (0 <? length (tasks s))%nat
       then Some (length (tasks s), length (pendingTasks s),
                  length (completedTasks s))
       else None;
     rows := render_row s <$> tasks s |}.

(** The events that the rendered component lets the user raise.  The input
    of the new task is always there, and Enter in it calls [addTask] whether
    or not the Add button is disabled.  The cards are those of [render], which
    are the cards on the page as long as the ids in the store, their keys, are
    pairwise distinct; under a repeated key the page can hold a card of an
    earlier render as well, which [offered] does not count. *)
Definition offered (s : State) (e : Event) : Prop :=
  match e with
  | TypeNewTask _ | AddTask _ _ => True
  | ToggleTask i => ∃ r, r ∈ rows (render s) ∧ row_key r = i
  | DeleteTask i => ∃ c x, ShowRow i c x ∈ rows (render s)
  | StartEditing i x => ∃ c, ShowRow i c x ∈ rows (render s)
  | TypeEditing _ | SaveEdit | CancelEdit =>
      ∃ k c v, EditRow k c v ∈ rows (render s)
  end.

(** A sequence of events, each offered by the render it is raised on. *)
Fixpoint offered_run (s : State) (es : list Event) : Prop :=
  match es with
  | [] => True
  | e :: es' => offered s e ∧ offered_run (step e s) es'
  end.

(** The events that stage an input and give [setTasks] nothing: typing in
    either box, opening an edit, cancelling it. *)
Definition is_staging (e : Event) : bool :=
  match e with
  | TypeNewTask _ | StartEditing _ _ | TypeEditing _ | CancelEdit => true
  | AddTask _ _ | ToggleTask _ | DeleteTask _ | SaveEdit => false
  end.

(** The edit in progress is on a task of the store. *)
Definition session_on_task (s : State) : Prop :=
  ∀ i, editingId s = Some i → i ∈ id <$> tasks s.

(** ** Persistence: the two [useEffect] blocks

    [JSON.parse], [JSON.stringify] and [Date] belong to the JavaScript engine,
    not to this repository; the effects are embedded over an interface that
    names what the component calls. *)

(** A value as [JSON.parse] returns it.  An object is the list of its own
    properties in creation order; [JSON.parse] never repeats a key. *)
Inductive json (number : Type) : Type :=
  | JNull
  | JBool (b : bool)
  | JNum (n : number)
  | JStr (s : jsstring)
  | JArr (l : list (json number))
  | JObj (m : list (jsstring * json number)).

Arguments JNull {number}.
Arguments JBool {number} b.
Arguments JNum {number} n.
Arguments JStr {number} s.
Arguments JArr {number} l.
Arguments JObj {number} m.

(** A property value of an object held by the component after loading: a
    parsed value, or a Date object. *)
Inductive value (number : Type) : Type :=
  | VJson (j : json number)
  | VDate (d : Date).

Arguments VJson {number} j.
Arguments VDate {number} d.

(** An object as the list of its own properties. *)
Definition object (number : Type) : Type := list (jsstring * value number).

Class Platform : Type := {
  (** the Number values that can come out of a JSON text *)
  number : Type;
  (** [JSON.parse(text)]; [None] when it throws a SyntaxError *)
  JSON_parse : jsstring → option (json number);
  (** [JSON.stringify(v)] for a value that holds no Date, function or
      undefined *)
  JSON_stringify : json number → jsstring;
  (** [d.toISOString()] for a valid time value *)
  Date_toISOString : Z → jsstring;
  (** [new Date(v)] for a parsed value [v], or for [undefined] ([None]),
      when the conversion of [v] to a primitive does not throw *)
  Date_of : option (json number) → Date;
}.

(** An exception that the [try] block of the load effect can see. *)
Inductive Error : Type := SyntaxError | TypeError.

Inductive completion (A : Type) : Type :=
  | Normal (a : A)
  | Throw (e : Error).

Arguments Normal {A} a.
Arguments Throw {A} e.

(** [l.map(f)] for a callback that may throw: elements are visited left to
    right and the first exception ends the loop. *)
Fixpoint map_throwing {A B : Type} (f : A → completion B) (l : list A)
  : completion (list B) :=
  match l with
  | [] => Normal []
  | a :: l' =>
      match f a with
      | Throw e => Throw e
      | Normal b =>
          match map_throwing f l' with
          | Throw e => Throw e
          | Normal bs => Normal (b :: bs)
          end
      end
  end.

(** A storage area that can be read and written: [getItem] gives the string
    under a key, or [null]. *)
Abbreviation Storage := (gmap jsstring jsstring).

Section Persistence.
Context {P : Platform}.

Fixpoint get_prop {V : Type} (k : jsstring) (o : list (jsstring * V))
  : option V :=
  match o with
  | [] => None
  | (k', v) :: o' => if decide (k' = k) then Some v else get_prop k o'
  end.

(** Writing property [k] in an object literal: an existing property keeps
    its place and takes the new value, a new one goes last. *)
Fixpoint set_prop {V : Type} (k : jsstring) (v : V)
  (o : list (jsstring * V)) : list (jsstring * V) :=
  match o with
  | [] => [(k, v)]
  | (k', v') :: o' =>
      if decide (k' = k) then (k, v) :: o' else (k', v') :: set_prop k v o'
  end.

(** The own enumerable properties that [{ ...task }] copies: those of an
    object, the indexed elements of an array, the indexed code units of a
    string; nothing for [null], a boolean or a number. *)
Definition spread (task : json number) : list (jsstring * json number) :=
  match task with
  | JObj m => m
  | JArr l => imap (λ i x, (Number_toString (Z.of_nat i), x)) l
  | JStr s => imap (λ i c, (Number_toString (Z.of_nat i), JStr [c])) s
  | JNull | JBool _ | JNum _ => []
  end.

(** [task.createdAt]: reading a property of [null] throws; a primitive, an
    array or an object without the property gives [undefined]. *)
Definition get_createdAt (task : json number)
  : completion (option (json number)) :=
  match task with
  | JNull => Throw TypeError
  | JObj m => Normal (get_prop (js "createdAt") m)
  | JArr _ | JStr _ | JBool _ | JNum _ => Normal None
  end.

(** Whether the conversion of a parsed value to a primitive throws.  [new
    Date(v)] converts an object or an array first, through its [valueOf] and
    [toString] methods.  A parsed object inherits both from
    [Object.prototype]: [valueOf] returns the object itself, which is no
    primitive, and [toString] returns a string.  An own property named
    [toString] hides the inherited method and, being a parsed value, is not
    callable: with it no method gives a primitive, and the conversion throws
    a TypeError.  An array is joined, which converts each element other than
    [null] to a string in the same way. *)
Fixpoint ToPrimitive_throws (v : json number) : bool :=
  match v with
  | JObj m => bool_decide (js "toString" ∈ m.*1)
  | JArr l => existsb ToPrimitive_throws l
  | JNull | JBool _ | JNum _ | JStr _ => false
  end.

(** [new Date(v)] as the callback of the load effect calls it. *)
Definition Date_new (v : option (json number)) : completion Date :=
  match v with
  | Some j =>
      if ToPrimitive_throws j then Throw TypeError
      else Normal (Date_of (Some j))
  | None => Normal (Date_of None)
  end.

(** The callback of the load effect:
    [task => ({ ...task, createdAt: new Date(task.createdAt) })].  It throws
    where reading [task.createdAt] throws and where [new Date] throws. *)
Definition revive (task : json number) : completion (object number) :=
  match get_createdAt task with
  | Throw e => Throw e
  | Normal c =>
      match Date_new c with
      | Throw e => Throw e
      | Normal d =>
          Normal (set_prop (js "createdAt") (VDate d)
                    (prod_map (λ k, k) VJson <$> spread task))
      end
  end.

(** The elements on which the callback throws: [null], and an object whose
    [createdAt] cannot be converted to a primitive. *)
Definition unrevivable (task : json number) : bool :=
  match task with
  | JObj m =>
      match get_prop (js "createdAt") m with
      | Some c => ToPrimitive_throws c
      | None => false
      end
  | JNull => true
  | JArr _ | JStr _ | JBool _ | JNum _ => false
  end.

(** The body of the [try]: [JSON.parse(savedTasks).map(...)].  Only an
    array has a [map] method. *)
Definition parse_tasks (savedTasks : jsstring)
  : completion (list (object number)) :=
  match JSON_parse savedTasks with
  | None => Throw SyntaxError
  | Some (JArr l) => map_throwing revive l
  | Some _ => Throw TypeError
  end.

(** The load effect, run once on mount on the task array [tasks0] of the
    first render.  It returns the task array after the effect and what was
    passed to [console.error]. *)
Definition load_effect (storage : Storage) (tasks0 : list (object number))
  : list (object number) * list Error :=
  match storage !! js "todos" with
  | Some savedTasks =>
      if truthy savedTasks then
        match parse_tasks savedTasks with
        | Normal parsedTasks => (parsedTasks, [])
        | Throw error => (tasks0, [error])
        end
      else (tasks0, [])
  | None => (tasks0, [])
  end.

(** [load()]: the component mounts with an empty task array. *)
Definition load (storage : Storage) : list (object number) :=
  (load_effect storage []).1.

(** A [Task] as the object the component holds. *)
Definition Task_object (task : Task) : object number :=
  [ (js "id", VJson (JStr (id task)));
    (js "text", VJson (JStr (text task)));
    (js "completed", VJson (JBool (completed task)));
    (js "createdAt", VDate (createdAt task)) ].

(** What [JSON.stringify] serializes in place of a Date: the result of its
    [toJSON], the ISO string of a valid date and [null] otherwise. *)
Definition Date_toJSON (d : Date) : json number :=
  match d with
  | DateAt tv => JStr (Date_toISOString tv)
  | InvalidDate => JNull
  end.

Definition Task_toJSON (task : Task) : json number :=
  JObj [ (js "id", JStr (id task));
         (js "text", JStr (text task));
         (js "completed", JBool (completed task));
         (js "createdAt", Date_toJSON (createdAt task)) ].

(** The save effect: [localStorage.setItem('todos', JSON.stringify(tasks))]. *)
Definition save_effect (tasks : list Task) (storage : Storage) : Storage :=
  <[ js "todos" := JSON_stringify (JArr (Task_toJSON <$> tasks)) ]> storage.

(** [save(tasks)] on a storage area. *)
Definition save : list Task → Storage → Storage := save_effect.

(** A date is written and read back when it is valid and the engine reads
    its ISO string as the same instant. *)
Definition reads_back (d : Date) : Prop :=
  match d with
  | DateAt tv => Date_of (Some (JStr (Date_toISOString tv))) = DateAt tv
  | InvalidDate => False
  end.

End Persistence.

(** ** Mounting and the save effect along a session *)

Section Mount.
Context {P : Platform}.

(** What [JSON.stringify] writes for a property value: a parsed value as it
    is, a Date through its [toJSON]. *)
Definition value_toJSON (v : value number) : json number :=
  match v with
  | VJson j => j
  | VDate d => Date_toJSON d
  end.

Definition object_toJSON (o : object number) : json number :=
  JObj (prod_map (λ k, k) value_toJSON <$> o).

(** The save effect on the task array as the component holds it. *)
Definition save_objects (tasks : list (object number)) (storage : Storage)
  : Storage :=
  <[ js "todos" := JSON_stringify (JArr (object_toJSON <$> tasks)) ]> storage.

(** Mounting.  The first render holds the empty task array.  After it the
    load effect runs on the storage as it is, then the save effect, which
    sees the empty array of the first render.  When the load effect called
    [setTasks], the component renders again and the save effect runs on the
    loaded array.  The result is the task array held and the storage left. *)
Definition mount (storage : Storage) : list (object number) * Storage :=
  let written := save_objects [] storage in
  match storage !! js "todos" with
  | Some savedTasks =>
      if truthy savedTasks then
        match parse_tasks savedTasks with
        | Normal parsedTasks => (parsedTasks, save_objects parsedTasks written)
        | Throw error => ([], written)
        end
      else ([], written)
  | None => ([], written)
  end.

(** Whether a handler gives [setTasks] a new array. *)
Definition calls_setTasks (e : Event) (s : State) : bool :=
  match e with
  | AddTask _ _ => truthy (trim (newTaskText s))
  | ToggleTask _ | DeleteTask _ => true
  | SaveEdit => truthy (trim (editingText s)) && truthy_opt (editingId s)
  | TypeNewTask _ | StartEditing _ _ | TypeEditing _ | CancelEdit => false
  end.

(** One event, the render after it and the save effect of that render, which
    runs when the task array is a new one. *)
Definition session_step (e : Event) (ss : State * Storage) : State * Storage :=
  let s' := step e ss.1 in
  (s', if calls_setTasks e ss.1 then save (tasks s') ss.2 else ss.2).

Definition session (es : list Event) (ss : State * Storage)
  : State * Storage :=
  foldl (λ ss e, session_step e ss) ss es.

End Mount.

(** ** A reference engine

    An executable instance of [Platform], to run the effects on concrete
    storage contents: the text that [JSON.stringify] writes, a reader of JSON
    texts, and the simplified ISO 8601 form of [toISOString].  Numbers are
    integers here: the reader takes a number literal with a fraction or an
    exponent as not readable, and of date strings it reads the form that
    [toISOString] writes. *)

Module Reference.

Local Open Scope N_scope.

Definition in_range (lo hi c : N) : bool := (lo <=? c) && (c <=? hi).

Definition is_digit (c : N) : bool := in_range 48 57 c.

Fixpoint strip_prefix (p s : jsstring) : option jsstring :=
  match p, s with
  | [], _ => Some s
  | a :: p', b :: s' => if a =? b then strip_prefix p' s' else None
  | _ :: _, [] => None
  end.

Fixpoint join_comma (l : list jsstring) : jsstring :=
  match l with
  | [] => []
  | [x] => x
  | x :: l' => x ++ 44 :: join_comma l'
  end.

(** *** Writing JSON text *)

Definition hex_digit (n : N) : N := if n <? 10 then 48 + n else 87 + n.

(** [\uXXXX], in lower-case hexadecimal. *)
Definition unicode_escape (c : N) : jsstring :=
  [92; 117; hex_digit (c / 4096 mod 16); hex_digit (c / 256 mod 16);
   hex_digit (c / 16 mod 16); hex_digit (c mod 16)].

Definition escape_unit (c : N) : jsstring :=
  if c =? 34 then [92; 34]
  else if c =? 92 then [92; 92]
  else if c =? 8 then [92; 98]
  else if c =? 9 then [92; 116]
  else if c =? 10 then [92; 110]
  else if c =? 12 then [92; 102]
  else if c =? 13 then [92; 114]
  else if (c <? 32) || in_range 0xD800 0xDFFF c then unicode_escape c
  else [c].

(** [QuoteJSONString] without the quotes: a surrogate pair is kept, a lone
    surrogate is escaped. *)
Fixpoint quote_units (s : jsstring) : jsstring :=
  match s with
  | [] => []
  | c :: r =>
      if in_range 0xD800 0xDBFF c then
        match r with
        | d :: r' =>
            if in_range 0xDC00 0xDFFF d then c :: d :: quote_units r'
            else unicode_escape c ++ quote_units r
        | [] => unicode_escape c
        end
      else escape_unit c ++ quote_units r
  end.

Definition quote (s : jsstring) : jsstring := 34 :: quote_units s ++ [34].

Fixpoint stringify (j : json Z) : jsstring :=
  match j with
  | JNull => js "null"
  | JBool true => js "true"
  | JBool false => js "false"
  | JNum n => Number_toString n
  | JStr s => quote s
  | JArr l => 91 :: join_comma (map stringify l) ++ [93]
  | JObj m =>
      123 :: join_comma
               (map (λ kv, let '(k, v) := kv in quote k ++ 58 :: stringify v)
                  m) ++ [125]
  end.

(** *** Reading JSON text *)

Definition is_json_ws (c : N) : bool :=
  (c =? 32) || (c =? 9) || (c =? 10) || (c =? 13).

Fixpoint skip_ws (s : jsstring) : jsstring :=
  match s with
  | c :: r => if is_json_ws c then skip_ws r else s
  | [] => []
  end.

Definition unhex (c : N) : option N :=
  if in_range 48 57 c then Some (c - 48)
  else if in_range 97 102 c then Some (c - 87)
  else if in_range 65 70 c then Some (c - 55)
  else None.

Definition read_escape (e : N) : option N :=
  if e =? 34 then Some 34
  else if e =? 92 then Some 92
  else if e =? 47 then Some 47
  else if e =? 98 then Some 8
  else if e =? 102 then Some 12
  else if e =? 110 then Some 10
  else if e =? 114 then Some 13
  else if e =? 116 then Some 9
  else None.

(** The rest of a string literal after its opening quote; [acc] holds the
    units read so far, the last one first. *)
Fixpoint read_string (s acc : jsstring) : option (jsstring * jsstring) :=
  match s with
  | [] => None
  | c :: r =>
      if c =? 34 then Some (rev acc, r)
      else if c =? 92 then
        match r with
        | [] => None
        | e :: r1 =>
            if e =? 117 then
              match r1 with
              | a :: b :: c' :: d :: r2 =>
                  match unhex a, unhex b, unhex c', unhex d with
                  | Some x3, Some x2, Some x1, Some x0 =>
                      read_string r2
                        (x3 * 4096 + x2 * 256 + x1 * 16 + x0 :: acc)
                  | _, _, _, _ => None
                  end
              | _ => None
              end
            else
              match read_escape e with
              | Some u => read_string r1 (u :: acc)
              | None => None
              end
        end
      else if c <? 32 then None
      else read_string r (c :: acc)
  end.

Fixpoint read_digits (s : jsstring) (acc : Z) : Z * jsstring :=
  match s with
  | c :: r =>
      if is_digit c then read_digits r (10 * acc + Z.of_N (c - 48))%Z
      else (acc, s)
  | [] => (acc, [])
  end.

Definition starts_fraction (s : jsstring) : bool :=
  match s with
  | c :: _ => (c =? 46) || (c =? 101) || (c =? 69)
  | [] => false
  end.

Definition read_unsigned (s : jsstring) : option (Z * jsstring) :=
  match s with
  | [] => None
  | c :: r =>
      if c =? 48 then
        match r with
        | d :: _ => if is_digit d then None else
                      if starts_fraction r then None else Some (0%Z, r)
        | [] => Some (0%Z, r)
        end
      else if is_digit c then
        let '(n, r') := read_digits s 0%Z in
        if starts_fraction r' then None else Some (n, r')
      else None
  end.

Definition read_number (s : jsstring) : option (Z * jsstring) :=
  match s with
  | c :: r =>
      if c =? 45 then
        match read_unsigned r with
        | Some (n, r') => Some ((- n)%Z, r')
        | None => None
        end
      else read_unsigned s
  | [] => None
  end.

Fixpoint read_value (fuel : nat) (s : jsstring)
  : option (json Z * jsstring) :=
  match fuel with
  | O => None
  | S fuel' =>
      match skip_ws s with
      | [] => None
      | c :: r =>
          if c =? 34 then
            match read_string r [] with
            | Some (x, r') => Some (JStr x, r')
            | None => None
            end
          else if c =? 91 then
            match skip_ws r with
            | d :: r' =>
                if d =? 93 then Some (JArr [], r')
                else read_elements fuel' r []
            | [] => None
            end
          else if c =? 123 then
            match skip_ws r with
            | d :: r' =>
                if d =? 125 then Some (JObj [], r')
                else read_members fuel' r []
            | [] => None
            end
          else
            match strip_prefix (js "null") (c :: r) with
            | Some r' => Some (JNull, r')
            | None =>
            match strip_prefix (js "true") (c :: r) with
            | Some r' => Some (JBool true, r')
            | None =>
            match strip_prefix (js "false") (c :: r) with
            | Some r' => Some (JBool false, r')
            | None =>
            match read_number (c :: r) with
            | Some (n, r') => Some (JNum n, r')
            | None => None
            end end end end
      end
  end
with read_elements (fuel : nat) (s : jsstring) (acc : list (json Z))
  : option (json Z * jsstring) :=
  match fuel with
  | O => None
  | S fuel' =>
      match read_value fuel' s with
      | None => None
      | Some (v, r) =>
          match skip_ws r with
          | d :: r' =>
              if d =? 44 then read_elements fuel' r' (v :: acc)
              else if d =? 93 then Some (JArr (rev (v :: acc)), r')
              else None
          | [] => None
          end
      end
  end
with read_members (fuel : nat) (s : jsstring)
       (acc : list (jsstring * json Z))
  : option (json Z * jsstring) :=
  match fuel with
  | O => None
  | S fuel' =>
      match skip_ws s with
      | q :: r0 =>
          if q =? 34 then
            match read_string r0 [] with
            | None => None
            | Some (k, r1) =>
                match skip_ws r1 with
                | c :: r2 =>
                    if c =? 58 then
                      match read_value fuel' r2 with
                      | None => None
                      | Some (v, r3) =>
                          match skip_ws r3 with
                          | d :: r' =>
                              if d =? 44
                              then read_members fuel' r' (set_prop k v acc)
                              else if d =? 125
                              then Some (JObj (set_prop k v acc), r')
                              else None
                          | [] => None
                          end
                      end
                    else None
                | [] => None
                end
            end
          else None
      | [] => None
      end
  end.

Definition parse (s : jsstring) : option (json Z) :=
  match read_value (2 * length s + 2) s with
  | Some (v, r) => match skip_ws r with [] => Some v | _ :: _ => None end
  | None => None
  end.

(** *** Dates *)

Local Open Scope Z_scope.

Definition ms_per_day : Z := 86400000.

(** The largest magnitude of a time value. *)
Definition max_time : Z := 8640000000000000.

(** Year, month and day of a day number counted from 1970-01-01, in the
    proleptic Gregorian calendar. *)
Definition civil_from_days (z : Z) : Z * Z * Z :=
  let z := z + 719468 in
  let era := z / 146097 in
  let doe := z - era * 146097 in
  let yoe := (doe - doe / 1460 + doe / 36524 - doe / 146096) / 365 in
  let doy := doe - (365 * yoe + yoe / 4 - yoe / 100) in
  let mp := (5 * doy + 2) / 153 in
  let d := doy - (153 * mp + 2) / 5 + 1 in
  let m := if mp <? 10 then mp + 3 else mp - 9 in
  (yoe + era * 400 + (if m <=? 2 then 1 else 0), m, d).

Definition days_from_civil (y m d : Z) : Z :=
  let y := if m <=? 2 then y - 1 else y in
  let era := y / 400 in
  let yoe := y - era * 400 in
  let doy := (153 * (if 2 <? m then m - 3 else m + 9) + 2) / 5 + d - 1 in
  let doe := yoe * 365 + yoe / 4 - yoe / 100 + doy in
  era * 146097 + doe - 719468.

(** The last [w] decimal digits of [n], zero-padded. *)
Fixpoint pad (w : nat) (n : Z) : jsstring :=
  match w with
  | O => []
  | S w' => Z.to_N (48 + (n / 10 ^ Z.of_nat w') mod 10) :: pad w' n
  end.

(** A calendar date and time of day: year, month, day, hours, minutes,
    seconds, milliseconds. *)
Definition Fields : Type := Z * Z * Z * Z * Z * Z * Z.

Definition fields_of (tv : Z) : Fields :=
  let ms := tv mod ms_per_day in
  let '(y, m, d) := civil_from_days (tv / ms_per_day) in
  (y, m, d, ms / 3600000, ms / 60000 mod 60, ms / 1000 mod 60, ms mod 1000).

Definition instant (f : Fields) : Z :=
  let '(y, m, d, hh, mi, ss, ms) := f in
  days_from_civil y m d * ms_per_day
  + hh * 3600000 + mi * 60000 + ss * 1000 + ms.

(** Four digits for the years 0 to 9999, a sign and six digits otherwise. *)
Definition year_string (y : Z) : jsstring :=
  if (0 <=? y) && (y <=? 9999) then pad 4 y
  else (if y <? 0 then js "-" else js "+") ++ pad 6 (Z.abs y).

(** [YYYY-MM-DDTHH:mm:ss.sssZ] *)
Definition write_fields (f : Fields) : jsstring :=
  let '(y, m, d, hh, mi, ss, ms) := f in
  year_string y ++ js "-" ++ pad 2 m ++ js "-" ++ pad 2 d
  ++ js "T" ++ pad 2 hh ++ js ":" ++ pad 2 mi ++ js ":" ++ pad 2 ss
  ++ js "." ++ pad 3 ms ++ js "Z".

Definition toISOString (tv : Z) : jsstring := write_fields (fields_of tv).

(** Exactly [w] digits. *)
Fixpoint read_fixed (w : nat) (s : jsstring) (acc : Z)
  : option (Z * jsstring) :=
  match w with
  | O => Some (acc, s)
  | S w' =>
      match s with
      | c :: r =>
          if is_digit c
          then read_fixed w' r (10 * acc + Z.of_N (c - 48)%N)
          else None
      | [] => None
      end
  end.

(** A separator, then [w] digits. *)
Definition read_field (sep : string) (w : nat) (s : jsstring)
  : option (Z * jsstring) :=
  match strip_prefix (js sep) s with
  | Some r => read_fixed w r 0
  | None => None
  end.

Definition read_year (s : jsstring) : option (Z * jsstring) :=
  match s with
  | c :: r =>
      if (c =? 43)%N then read_fixed 6 r 0
      else if (c =? 45)%N then
        match read_fixed 6 r 0 with
        | Some (y, r') => Some (- y, r')
        | None => None
        end
      else read_fixed 4 s 0
  | [] => None
  end.

Definition read_fields (s : jsstring) : option Fields :=
  '(y, s1) ← read_year s;
  '(m, s2) ← read_field "-" 2 s1;
  '(d, s3) ← read_field "-" 2 s2;
  '(hh, s4) ← read_field "T" 2 s3;
  '(mi, s5) ← read_field ":" 2 s4;
  '(ss, s6) ← read_field ":" 2 s5;
  '(ms, s7) ← read_field "." 3 s6;
  if decide (s7 = js "Z") then Some (y, m, d, hh, mi, ss, ms) else None.

(** Fields that fit the digits [write_fields] gives them. *)
Definition in_calendar (f : Fields) : Prop :=
  let '(y, m, d, hh, mi, ss, ms) := f in
  -1000000 < y < 1000000 ∧ 0 ≤ m < 100 ∧ 0 ≤ d < 100 ∧ 0 ≤ hh < 100
  ∧ 0 ≤ mi < 100 ∧ 0 ≤ ss < 100 ∧ 0 ≤ ms < 1000.

Definition TimeClip (tv : Z) : Date :=
  if Z.abs tv <=? max_time then DateAt tv else InvalidDate.

(** [new Date(s)] for a string: the instant that [toISOString] writes as
    [s], if there is one. *)
Definition Date_parse (s : jsstring) : Date :=
  match read_fields s with
  | Some f =>
      if decide (toISOString (instant f) = s) then TimeClip (instant f)
      else InvalidDate
  | None => InvalidDate
  end.

(** [ToString] of an array or object, which is what [new Date] sees of it:
    the elements of an array joined by commas, [null] as the empty string.
    It is the string of a value whose conversion does not throw, that is, one
    that holds no object with an own [toString] property. *)
Fixpoint ToString (j : json Z) : jsstring :=
  match j with
  | JNull => js "null"
  | JBool true => js "true"
  | JBool false => js "false"
  | JNum n => Number_toString n
  | JStr s => s
  | JArr l =>
      join_comma
        (map (λ x, match x with JNull => [] | _ => ToString x end) l)
  | JObj _ => js "[object Object]"
  end.

Definition new_Date (v : option (json Z)) : Date :=
  match v with
  | None => InvalidDate
  | Some JNull => DateAt 0
  | Some (JBool b) => DateAt (if b then 1 else 0)
  | Some (JNum n) => TimeClip n
  | Some (JStr s) => Date_parse s
  | Some (JArr l) => Date_parse (ToString (JArr l))
  | Some (JObj m) => Date_parse (ToString (JObj m))
  end.

#[export] Instance engine : Platform :=
  {| number := Z;
     JSON_parse := parse;
     JSON_stringify := stringify;
     Date_toISOString := toISOString;
     Date_of := new_Date |}.

End Reference.

(** ** Valid dates *)

(** The reading of the clock that [new Date()] takes in an add is a valid
    time value. *)
Definition clock_valid (e : Event) : Prop :=
  match e with
  | AddTask _ now_created => Z.abs now_created ≤ Reference.max_time
  | _ => True
  end.

Definition valid_date (d : Date) : Prop :=
  match d with
  | DateAt tv => Z.abs tv ≤ Reference.max_time
  | InvalidDate => False
  end.

(** ** Sample data *)

(** Two tasks that got the same id, as two adds within one millisecond leave
    them, and a third one. *)
Definition milk : Task :=
  {| id := js "1700000000000"; text := js "Buy milk"; completed := false;
     createdAt := DateAt 1700000000000 |}.

Definition bread : Task :=
  {| id := js "1700000000000"; text := js "Buy bread"; completed := true;
     createdAt := DateAt 1700000000000 |}.

Definition eggs : Task :=
  {| id := js "1700000000777"; text := js "Buy eggs"; completed := false;
     createdAt := DateAt 1700000000777 |}.

Definition shopping : State :=
  {| tasks := [bread; eggs; milk]; newTaskText := []; editingId := None;
     editingText := [] |}.

(** [eggs] is being edited. *)
Definition editing_eggs : State :=
  {| tasks := [eggs; milk]; newTaskText := [];
     editingId := Some (js "1700000000777"); editingText := js "Buy eggs" |}.

(** Two adds that read the same millisecond. *)
Definition same_millisecond : list Event :=
  [ TypeNewTask (js "Buy milk"); AddTask 1700000000000 1700000000000;
    TypeNewTask (js "Buy bread"); AddTask 1700000000000 1700000000000 ].

(** Adds a millisecond apart, with a toggle and a delete in between. *)
Definition one_by_one : list Event :=
  [ TypeNewTask (js "Buy milk"); AddTask 1700000000000 1700000000000;
    ToggleTask (js "1700000000000");
    TypeNewTask (js "Buy bread"); AddTask 1700000000001 1700000000001;
    DeleteTask (js "1700000000000");
    TypeNewTask (js "Buy eggs"); AddTask 1700000000002 1700000000003 ].

(** What a fresh storage area holds after [save]. *)
Definition saved_shopping : Storage :=
  save (P := Reference.engine) [eggs; milk] ∅.

(** A stored array whose one element is no task record. *)
Definition stored_stranger : Storage := {[ js "todos" := js "[{}]" ]}.

(** A stored text that is not JSON. *)
Definition stored_garbage : Storage := {[ js "todos" := js "[tru" ]}.

(** A stored array whose one element has a [createdAt] that [new Date] cannot
    convert: [[{"createdAt":{"toString":0}}]], the double quote being the code
    unit 34. *)
Definition stored_unconvertible : Storage :=
  {[ js "todos" :=
       js "[{" ++ [34%N] ++ js "createdAt" ++ [34%N] ++ js ":{"
       ++ [34%N] ++ js "toString" ++ [34%N] ++ js ":0}}]" ]}.

(** A task whose id is the empty string, which no add makes and the load
    effect accepts, under edit. *)
Definition nameless : Task :=
  {| id := []; text := js "Buy tea"; completed := false;
     createdAt := DateAt 1700000000000 |}.

Definition editing_nameless : State :=
  {| tasks := [nameless]; newTaskText := []; editingId := Some [];
     editingText := js "Buy tea" |}.

(** The task on top after [one_by_one]. *)
Definition eggs_on_top : Task :=
  {| id := js "1700000000002"; text := js "Buy eggs"; completed := false;
     createdAt := DateAt 1700000000003 |}.

(** Adding a task and editing it, as the rendered component lets one do. *)
Definition edit_by_hand : list Event :=
  [ TypeNewTask (js "Buy milk"); AddTask 1700000000000 1700000000000;
    StartEditing (js "1700000000000") (js "Buy milk");
    TypeEditing (js "Buy oat milk"); SaveEdit ].

(** Deleting the task under edit, which no rendered button does, and then
    saving. *)
Definition delete_under_edit : list Event :=
  [ TypeNewTask (js "Buy milk"); AddTask 1700000000000 1700000000000;
    StartEditing (js "1700000000000") (js "Buy milk");
    DeleteTask (js "1700000000000") ].

(** Typing and an edit that is given up. *)
Definition change_of_mind : list Event :=
  [ TypeNewTask (js "Buy "); StartEditing (js "1700000000777") (js "Buy eggs");
    TypeEditing (js "Buy egg"); TypeEditing (js "Buy e") ].

(** The storage that a component mounted on an empty one leaves. *)
Definition stored_empty : Storage := {[ js "todos" := js "[]" ]}.

(** * Properties of the task store *)

Section JsStrings.

Global Instance js_inj : Inj (=) (=) js.
Proof.
  intros s1 s2 H. unfold js in H.
  apply (f_equal (fmap ascii_of_N)) in H.
  rewrite <- !list_fmap_compose in H.
  rewrite !(list_fmap_ext (ascii_of_N ∘ N_of_ascii) (λ a, a)) in H
    by (intros; simpl; apply ascii_N_embedding).
  rewrite !list_fmap_id in H.
  apply (f_equal string_of_list_ascii) in H.
  by rewrite !string_of_list_ascii_of_string in H.
Qed.

Global Instance Number_toString_inj : Inj (=) (=) Number_toString.
Proof. intros n m H. by apply (inj pretty), (inj js). Qed.

Lemma pretty_N_go_nonempty (x : N) (s : string) :
  s ≠ EmptyString → pretty_N_go x s ≠ EmptyString.
Proof.
  revert s. induction (N.lt_wf_0 x) as [x _ IH]; intros s Hs.
  destruct (decide (x = 0)%N) as [->|Hx]; [by rewrite pretty_N_go_0|].
  rewrite pretty_N_go_step by lia.
  apply IH; [apply N.div_lt; lia | done].
Qed.

Lemma pretty_N_nonempty (x : N) : pretty x ≠ EmptyString.
Proof.
  unfold pretty, pretty_N. case_decide; [done|].
  rewrite pretty_N_go_step by lia. by apply pretty_N_go_nonempty.
Qed.

(** An id made by [addTask] is never the empty string. *)
Lemma Number_toString_truthy (n : Z) : truthy (Number_toString n) = true.
Proof.
  unfold Number_toString, js.
  assert (pretty n ≠ EmptyString) as H.
  { destruct n as [|p|p]; [done| |done]. apply (pretty_N_nonempty (Npos p)). }
  by destruct (pretty n).
Qed.

Lemma truthy_nonempty (x : jsstring) : truthy x = true ↔ x ≠ [].
Proof. by destruct x. Qed.

Lemma trimStart_white (s : jsstring) :
  forallb is_white_space s = true → trimStart s = [].
Proof.
  induction s as [|c r IH]; [done|]; simpl.
  intros [Hc Hr]%andb_prop. rewrite Hc. auto.
Qed.

(** A string of white space only trims to the empty string. *)
Lemma trim_white (s : jsstring) :
  forallb is_white_space s = true → trim s = [].
Proof. intros H. unfold trim, trimEnd. by rewrite (trimStart_white s H). Qed.

End JsStrings.

Section StateFacts.

Lemma State_eta (s : State) :
  {| tasks := tasks s; newTaskText := newTaskText s;
     editingId := editingId s; editingText := editingText s |} = s.
Proof. by destruct s. Qed.

Lemma setTasks_same (s : State) : setTasks (tasks s) s = s.
Proof. apply State_eta. Qed.

Lemma tasks_setTasks l s : tasks (setTasks l s) = l.
Proof. done. Qed.

Lemma addTask_blank now_id now_created s :
  trim (newTaskText s) = [] → addTask now_id now_created s = (s, []).
Proof. intros H. unfold addTask. by rewrite H. Qed.

Lemma addTask_nonblank now_id now_created s :
  trim (newTaskText s) ≠ [] →
  addTask now_id now_created s
  = (setNewTaskText []
       (setTasks
          ({| id := Number_toString now_id; text := trim (newTaskText s);
              completed := false; createdAt := DateAt now_created |}
           :: tasks s) s),
     [toast_added]).
Proof. intros H%truthy_nonempty. unfold addTask. by rewrite H. Qed.

End StateFacts.

Example add_buy_milk :
  tasks (add (js "  Buy milk ") 1700000000000 1700000000001 initial)
  = [ {| id := js "1700000000000"; text := js "Buy milk"; completed := false;
         createdAt := DateAt 1700000000001 |} ].
Proof. vm_compute. reflexivity. Qed.

Example add_empty : add [] 1700000000000 1700000000001 initial = initial.
Proof. reflexivity. Qed.

Example add_spaces :
  tasks (add (js "   ") 1700000000000 1700000000001 initial) = [].
Proof. reflexivity. Qed.

(** The scenario of the spec: add "Buy milk", toggle it, edit its text, delete
    it. *)
Example scenario_buy_milk :
  let s1 := add (js "Buy milk") 1700000000000 1700000000000 initial in
  let s2 := step (ToggleTask (js "1700000000000")) s1 in
  let s3 := commitEdit (js "Buy oat milk")
              (step (StartEditing (js "1700000000000") (js "Buy milk")) s2) in
  let s4 := step (DeleteTask (js "1700000000000")) s3 in
  (text <$> tasks s1, completed <$> tasks s1) = ([js "Buy milk"], [false])
  ∧ completed <$> tasks s2 = [true]
  ∧ (text <$> tasks s3, completed <$> tasks s3) = ([js "Buy oat milk"], [true])
  ∧ tasks s4 = [].
Proof. vm_compute. done. Qed.

(** One task done and two to do. *)
Example stats_shopping :
  (length (tasks shopping), length (pendingTasks shopping),
   length (completedTasks shopping)) = (3, 2, 1)%nat.
Proof. reflexivity. Qed.

(** The guard of [saveEdit] takes the empty string for "no edit": on a task
    whose id is the empty string, which no add makes, saving does nothing. *)
Example saveEdit_empty_id :
  let s := {| tasks := [ {| id := []; text := js "a"; completed := false;
                            createdAt := DateAt 0 |} ];
              newTaskText := []; editingId := Some [];
              editingText := js "b" |} in
  saveEdit s = (s, []).
Proof. reflexivity. Qed.

(** C3. Adding a text that trims to the empty string does nothing: [addTask]
    returns the state it was given and raises no toast, so the task array and
    its length are what they were. *)
Theorem add_blank_is_noop (x : jsstring) (now_id now_created : Z) (s : State) :
  trim x = [] →
  addTask now_id now_created (setNewTaskText x s) = (setNewTaskText x s, [])
  ∧ tasks (add x now_id now_created s) = tasks s
  ∧ length (tasks (add x now_id now_created s)) = length (tasks s).
Proof.
  intros Hx.
  change (add x now_id now_created s)
    with (addTask now_id now_created (setNewTaskText x s)).1.
  by rewrite addTask_blank.
Qed.

Lemma add_blank_is_noop_witness :
  trim (js "   ") = []
  ∧ tasks (add (js "   ") 1700000000000 1700000000001 initial) = tasks initial.
Proof.
  split; [reflexivity|].
  apply (add_blank_is_noop (js "   ") 1700000000000 1700000000001 initial).
  reflexivity.
Defined.

(** C4. Adding a text that does not trim to the empty string puts one new
    task in front of the array: its id is the decimal rendering of the reading
    of [Date.now()], its text the trimmed input, it is not completed, and its
    creation time is the reading of [new Date()].  The tasks already held
    follow it, unchanged and in their order. *)
Theorem add_prepends_task (x : jsstring) (now_id now_created : Z) (s : State) :
  trim x ≠ [] →
  tasks (add x now_id now_created s)
  = {| id := Number_toString now_id; text := trim x; completed := false;
       createdAt := DateAt now_created |} :: tasks s.
Proof.
  intros Hx.
  change (add x now_id now_created s)
    with (addTask now_id now_created (setNewTaskText x s)).1.
  by rewrite addTask_nonblank.
Qed.

Lemma add_prepends_task_witness :
  trim (js " Buy milk") ≠ []
  ∧ tasks (add (js " Buy milk") 1700000000000 1700000000001 initial)
    = [ {| id := Number_toString 1700000000000; text := trim (js " Buy milk");
           completed := false; createdAt := DateAt 1700000000001 |} ].
Proof.
  split; [by vm_compute|].
  apply (add_prepends_task (js " Buy milk") 1700000000000 1700000000001 initial).
  by vm_compute.
Defined.

(** ** Toggling, deleting and editing by id *)

Section ById.
Implicit Types (i : jsstring) (l : list Task) (task : Task) (s : State).

Local Abbreviation toggle_one i :=
  (λ task : Task, if decide (id task = i)
                  then with_completed (negb (completed task)) task
                  else task).

Local Abbreviation retext_one o x :=
  (λ task : Task, if decide (Some (id task) = o)
                  then with_text x task else task).

Lemma with_completed_same task : with_completed (completed task) task = task.
Proof. by destruct task. Qed.

Lemma toggle_one_twice i task : toggle_one i (toggle_one i task) = task.
Proof.
  simpl. destruct (decide (id task = i)) as [Hi|Hi]; simpl.
  - rewrite decide_True by done. destruct task; unfold with_completed; simpl.
    by rewrite negb_involutive.
  - by rewrite decide_False.
Qed.

Lemma fmap_toggle_twice i l : toggle_one i <$> (toggle_one i <$> l) = l.
Proof.
  induction l as [|task l IH]; [done|].
  rewrite !fmap_cons, IH. f_equal. apply toggle_one_twice.
Qed.

Lemma fmap_toggle_absent i l : i ∉ id <$> l → toggle_one i <$> l = l.
Proof.
  induction l as [|task l IH]; [done|].
  rewrite !fmap_cons, not_elem_of_cons. intros [Hne Hl].
  rewrite IH by done. by rewrite decide_False.
Qed.

Lemma filter_absent i l :
  i ∉ id <$> l → filter (λ task, id task ≠ i) l = l.
Proof.
  induction l as [|task l IH]; [done|].
  rewrite fmap_cons, not_elem_of_cons. intros [Hne Hl].
  rewrite filter_cons_True by done. by rewrite IH.
Qed.

Lemma filter_removes i l : i ∉ id <$> filter (λ task, id task ≠ i) l.
Proof.
  intros (task & -> & [Hne _]%list_elem_of_filter)%list_elem_of_fmap. done.
Qed.

Lemma length_filter_split i l :
  (length (filter (λ task, id task ≠ i) l)
   + length (filter (λ task, id task = i) l) = length l)%nat.
Proof.
  induction l as [|task l IH]; [done|].
  rewrite !filter_cons.
  destruct (decide (id task = i)) as [Hi|Hi].
  - rewrite decide_False by (by intros []). simpl. lia.
  - rewrite decide_True by done. simpl. lia.
Qed.

Lemma toggleTask_tasks i s :
  tasks (toggleTask i s).1 = toggle_one i <$> tasks s.
Proof. done. Qed.

Lemma deleteTask_tasks i s :
  tasks (deleteTask i s).1 = filter (λ task, id task ≠ i) (tasks s).
Proof. done. Qed.

Lemma saveEdit_blank s : trim (editingText s) = [] → saveEdit s = (s, []).
Proof. intros H. unfold saveEdit. by rewrite H. Qed.

Lemma saveEdit_commit s i :
  editingId s = Some i → truthy i = true → trim (editingText s) ≠ [] →
  saveEdit s
  = (setEditingText []
       (setEditingId None
          (setTasks (retext_one (Some i) (trim (editingText s)) <$> tasks s)
             s)),
     [toast_updated]).
Proof.
  intros Hid Hi Hx%truthy_nonempty. unfold saveEdit.
  rewrite Hx, Hid. simpl. by rewrite Hi.
Qed.

End ById.

(** C5. Toggling the same id twice in a row gives back the state it started
    from; a task with that id has its completed flag negated by the first
    toggle and is again what it was after the second. *)
Theorem toggle_twice_restores (i : jsstring) (s : State) :
  (toggleTask i (toggleTask i s).1).1 = s
  ∧ ∀ (k : nat) (task : Task),
      tasks s !! k = Some task → id task = i →
      completed <$> (tasks (toggleTask i s).1 !! k)
      = Some (negb (completed task))
      ∧ tasks (toggleTask i (toggleTask i s).1).1 !! k = Some task.
Proof.
  assert ((toggleTask i (toggleTask i s).1).1 = s) as Htwice.
  { unfold toggleTask; simpl. unfold setTasks; simpl.
    rewrite fmap_toggle_twice. apply State_eta. }
  split; [done|]. intros k task Hk Hi. split.
  - rewrite toggleTask_tasks, list_lookup_fmap, Hk. simpl.
    by rewrite decide_True.
  - by rewrite Htwice.
Qed.

Lemma toggle_twice_restores_witness :
  completed <$> (tasks (toggleTask (js "1700000000777") shopping).1 !! 1%nat)
  = Some true
  ∧ tasks (toggleTask (js "1700000000777")
             (toggleTask (js "1700000000777") shopping).1).1 !! 1%nat
    = Some eggs.
Proof.
  apply (proj2 (toggle_twice_restores (js "1700000000777") shopping) 1%nat eggs);
    reflexivity.
Defined.

(** C6. For an id that no task has, [toggleTask] returns the state it was
    given and [deleteTask] returns it too (it still raises its toast); and for
    any id, deleting a second time changes nothing after the first. *)
Theorem absent_id_is_noop (i : jsstring) (s : State) :
  (i ∉ id <$> tasks s →
   toggleTask i s = (s, []) ∧ deleteTask i s = (s, [toast_deleted]))
  ∧ (deleteTask i (deleteTask i s).1).1 = (deleteTask i s).1.
Proof.
  assert (∀ s', i ∉ id <$> tasks s' → deleteTask i s' = (s', [toast_deleted]))
    as Hdel.
  { intros s' Hi. unfold deleteTask. rewrite filter_absent by done.
    by rewrite setTasks_same. }
  split.
  - intros Hi. split; [|by apply Hdel].
    unfold toggleTask. rewrite fmap_toggle_absent by done.
    by rewrite setTasks_same.
  - rewrite (Hdel (deleteTask i s).1); [done|].
    rewrite deleteTask_tasks. apply filter_removes.
Qed.

Lemma absent_id_is_noop_witness :
  (js "42" ∉ id <$> tasks shopping)
  ∧ toggleTask (js "42") shopping = (shopping, [])
  ∧ deleteTask (js "42") shopping = (shopping, [toast_deleted]).
Proof.
  assert (js "42" ∉ (id <$> tasks shopping)) as Hi.
  { refine (bool_decide_unpack _ _). vm_compute. exact I. }
  split; [exact Hi|].
  exact (proj1 (absent_id_is_noop (js "42") shopping) Hi).
Defined.

(** C10. When several tasks share an id, [toggleTask] negates the completed
    flag of each of them and leaves the tasks with another id as they are,
    position by position; [deleteTask] keeps exactly the tasks with another
    id, so it removes as many tasks as had the id. *)
Theorem same_id_tasks_act_together (i : jsstring) (s : State) :
  (∀ (k : nat) (task : Task),
     tasks s !! k = Some task →
     tasks (toggleTask i s).1 !! k
     = Some (if decide (id task = i)
             then {| id := id task; text := text task;
                     completed := negb (completed task);
                     createdAt := createdAt task |}
             else task))
  ∧ length (tasks (toggleTask i s).1) = length (tasks s)
  ∧ (∀ task : Task,
       task ∈ tasks (deleteTask i s).1 ↔ task ∈ tasks s ∧ id task ≠ i)
  ∧ tasks (deleteTask i s).1 `sublist_of` tasks s
  ∧ (length (tasks (deleteTask i s).1)
     + length (filter (λ task, id task = i) (tasks s))
     = length (tasks s))%nat.
Proof.
  split; [|split; [|split; [|split]]].
  - intros k task Hk. rewrite toggleTask_tasks, list_lookup_fmap, Hk. done.
  - rewrite toggleTask_tasks. apply length_fmap.
  - intros task. rewrite deleteTask_tasks, list_elem_of_filter. tauto.
  - rewrite deleteTask_tasks. apply sublist_filter.
  - rewrite deleteTask_tasks. apply length_filter_split.
Qed.

(** With [milk] and [bread] under one id, one toggle flips both and one
    delete removes both. *)
Example toggle_shared_id :
  completed <$> tasks (toggleTask (js "1700000000000") shopping).1
  = [false; false; true].
Proof. reflexivity. Qed.

Example delete_shared_id :
  tasks (deleteTask (js "1700000000000") shopping).1 = [eggs].
Proof. reflexivity. Qed.

(** The card of a task whose id is the empty string shows the edit box when
    [editingId] is the empty string: the render compares with [===]. *)
Example nameless_edit_box :
  rows (render editing_nameless) = [EditRow [] false (js "Buy tea")].
Proof. reflexivity. Qed.


Example commitEdit_empty_id :
  tasks (commitEdit (js "Buy green tea") editing_nameless) = [nameless]
  ∧ editingId (commitEdit (js "Buy green tea") editing_nameless) = Some [].
Proof. split; reflexivity. Qed.



(** C2, as the code has it.  Saving a text that trims to the empty string
    does nothing at all: [saveEdit] returns the state it was given and raises
    no toast.  The task array and the text of every task are what they were,
    and the edit stays open, with [editingId] as it was and the submitted text
    in the edit box. *)
Theorem commitEdit_blank_is_noop (x : jsstring) (s : State) :
  trim x = [] →
  saveEdit (setEditingText x s) = (setEditingText x s, [])
  ∧ tasks (commitEdit x s) = tasks s
  ∧ editingId (commitEdit x s) = editingId s
  ∧ editingText (commitEdit x s) = x.
Proof.
  intros Hx.
  change (commitEdit x s) with (saveEdit (setEditingText x s)).1.
  by rewrite saveEdit_blank.
Qed.

Lemma commitEdit_blank_is_noop_witness :
  tasks (commitEdit [] editing_eggs) = tasks editing_eggs
  ∧ editingId (commitEdit [] editing_eggs) = Some (js "1700000000777")
  ∧ editingText (commitEdit [] editing_eggs) = [].
Proof.
  apply (commitEdit_blank_is_noop [] editing_eggs). reflexivity.
Defined.

(** C2, as the spec has it, fails: after saving the empty text the edit is
    still open, where [cancelEdit] would have closed it. *)
Lemma commitEdit_blank_keeps_session :
  ¬ (trim [] = [] →
     tasks (commitEdit [] editing_eggs) = tasks editing_eggs
     ∧ editingId (commitEdit [] editing_eggs)
       = editingId (cancelEdit editing_eggs).1
     ∧ editingText (commitEdit [] editing_eggs)
       = editingText (cancelEdit editing_eggs).1).
Proof. intros H. destruct (H eq_refl) as (_ & Hid & _). discriminate Hid. Qed.

(** ** Ids along a run *)

Section Ids.
Implicit Types (s : State) (e : Event) (es : list Event).

Local Abbreviation ids s := (id <$> tasks s).

(** Changing fields of tasks in place keeps the ids. *)
Lemma ids_fmap_keep (f : Task → Task) (l : list Task) :
  (∀ task, id (f task) = id task) → id <$> (f <$> l) = id <$> l.
Proof.
  intros Hf. rewrite <- list_fmap_compose.
  apply list_fmap_ext. intros ? task _. apply Hf.
Qed.

Lemma id_clock_cons e es s :
  id_clock (e :: es) s
  = match makes_id e s with
    | Some n => n :: id_clock es (step e s)
    | None => id_clock es (step e s)
    end.
Proof. done. Qed.

Lemma step_makes_id e s n :
  makes_id e s = Some n → ids (step e s) = Number_toString n :: ids s.
Proof.
  destruct e; simpl; try done.
  unfold step, handle, addTask.
  destruct (truthy _); [|done]. by intros [= ->].
Qed.

Lemma step_makes_none e s :
  makes_id e s = None → ids (step e s) `sublist_of` ids s.
Proof.
  destruct e; simpl; intros He; unfold step, handle; try done.
  - unfold addTask. by destruct (truthy _).
  - simpl. rewrite ids_fmap_keep; [done|].
    intros task. by destruct (decide _).
  - simpl. apply fmap_sublist, sublist_filter.
  - unfold saveEdit. destruct (_ && _); [|done]. simpl.
    rewrite ids_fmap_keep; [done|].
    intros task. by destruct (decide _).
Qed.

Lemma run_cons e es s : run (e :: es) s = run es (step e s).
Proof. done. Qed.

(** Along a run, the ids in the store are distinct as long as the clock
    readings turned into ids are distinct and none of them renders as an id
    that the store started with; and an id in the store was there from the
    start or is the rendering of one of those readings. *)
Lemma run_ids es :
  ∀ s,
    NoDup (ids s) → NoDup (id_clock es s) →
    (∀ n, n ∈ id_clock es s → Number_toString n ∉ ids s) →
    NoDup (ids (run es s))
    ∧ ∀ i, i ∈ ids (run es s) →
           i ∈ ids s ∨ ∃ n, n ∈ id_clock es s ∧ i = Number_toString n.
Proof.
  induction es as [|e es IH]; intros s Hs Hclock Hfresh.
  { split; [done|]. intros i Hi. by left. }
  rewrite run_cons. rewrite id_clock_cons in Hclock, Hfresh.
  setoid_rewrite id_clock_cons.
  destruct (makes_id e s) as [n|] eqn:He.
  - apply step_makes_id in He.
    apply NoDup_cons in Hclock as [Hn Hclock].
    destruct (IH (step e s)) as [Hnd Hin]; [| done | |].
    + rewrite He. apply NoDup_cons. split; [|done].
      apply Hfresh. by left.
    + intros m Hm. rewrite He. apply not_elem_of_cons. split.
      * intros Heq%(inj Number_toString). by subst.
      * apply Hfresh. by right.
    + split; [done|]. intros i Hi.
      destruct (Hin i Hi) as [Hold|(m & Hm & ->)].
      * rewrite He in Hold. apply elem_of_cons in Hold as [->|Hold].
        -- right. exists n. split; [by left|done].
        -- by left.
      * right. exists m. split; [by right|done].
  - apply step_makes_none in He.
    destruct (IH (step e s)) as [Hnd Hin]; [| done | |].
    + by eapply sublist_NoDup.
    + intros m Hm Hin'. eapply Hfresh; [done|].
      by eapply elem_of_sublist.
    + split; [done|]. intros i Hi.
      destruct (Hin i Hi) as [Hold|Hnew]; [|by right].
      left. by eapply elem_of_sublist.
Qed.

Lemma id_clock_app es1 es2 s :
  id_clock (es1 ++ es2) s = id_clock es1 s ++ id_clock es2 (run es1 s).
Proof.
  revert s. induction es1 as [|e es1 IH]; intros s; [done|].
  rewrite run_cons. cbn [app]. rewrite !id_clock_cons, IH.
  by destruct (makes_id e s).
Qed.

(** Under the same conditions the ids are distinct in every state of the run:
    every render of it has distinct keys. *)
Lemma run_prefix_ids es1 es2 s :
  NoDup (ids s) → NoDup (id_clock (es1 ++ es2) s) →
  (∀ n, n ∈ id_clock (es1 ++ es2) s → Number_toString n ∉ ids s) →
  NoDup (ids (run es1 s)).
Proof.
  rewrite id_clock_app. intros Hs [Hclock _]%NoDup_app Hfresh.
  apply (run_ids es1 s); [done|done|].
  intros n Hn. apply Hfresh, elem_of_app. by left.
Qed.

End Ids.

(** C1, as the spec has it, fails: the id is the reading of the clock, and two
    adds that read the same millisecond get the same id. *)
Lemma same_millisecond_same_id :
  ¬ NoDup (id <$> tasks (run same_millisecond initial)).
Proof. refine (bool_decide_unpack _ _). vm_compute. exact I. Qed.

(** C1, as the code has it.  From a store whose ids are pairwise distinct, and
    along any sequence of events, the ids in the store stay pairwise distinct
    provided the readings of [Date.now()] that were turned into ids are
    pairwise distinct and none of them renders as an id the store started
    with.  Then the ids given out along the run are pairwise distinct too, so
    none is given twice, and an id in the store is one the store started with
    or one given out along the run. *)
Theorem ids_distinct_while_clock_distinct (es : list Event) (s : State) :
  NoDup (id <$> tasks s) →
  NoDup (id_clock es s) →
  (∀ n, n ∈ id_clock es s → Number_toString n ∉ id <$> tasks s) →
  NoDup (id <$> tasks (run es s))
  ∧ NoDup (Number_toString <$> id_clock es s)
  ∧ ∀ i, i ∈ id <$> tasks (run es s) →
         i ∈ id <$> tasks s ∨ ∃ n, n ∈ id_clock es s ∧ i = Number_toString n.
Proof.
  intros Hs Hclock Hfresh.
  destruct (run_ids es s Hs Hclock Hfresh) as [Hnd Hin].
  split; [done|]. split; [|done].
  by apply (NoDup_fmap_2 Number_toString).
Qed.

Lemma ids_distinct_while_clock_distinct_witness :
  id_clock one_by_one initial = [1700000000000; 1700000000001; 1700000000002]
  ∧ NoDup (id <$> tasks (run one_by_one initial)).
Proof.
  split; [reflexivity|].
  apply (ids_distinct_while_clock_distinct one_by_one initial).
  - refine (bool_decide_unpack _ _). vm_compute. exact I.
  - refine (bool_decide_unpack _ _). vm_compute. exact I.
  - intros n _. simpl. apply not_elem_of_nil.
Defined.

(** * Properties of the persistence effects *)

Section PersistenceFacts.
Context {P : Platform}.
Implicit Types (storage : Storage) (l : list (json number)).

(** The object that the load effect makes of a stored task record. *)
Lemma revive_Task_toJSON (task : Task) :
  revive (Task_toJSON task)
  = Normal [ (js "id", VJson (JStr (id task)));
             (js "text", VJson (JStr (text task)));
             (js "completed", VJson (JBool (completed task)));
             (js "createdAt",
              VDate (Date_of (Some (Date_toJSON (createdAt task))))) ].
Proof. by destruct task as [i x c []]. Qed.

(** What the callback throws is a TypeError. *)
Lemma revive_throws_TypeError (j : json number) e :
  revive j = Throw e → e = TypeError.
Proof.
  unfold revive, Date_new.
  destruct j as [| | | | |m]; simpl; try congruence.
  destruct (get_prop (js "createdAt") m) as [c|]; [|congruence].
  destruct (ToPrimitive_throws c); congruence.
Qed.

(** The callback throws on [null] and on an object whose [createdAt] has no
    primitive value, and on nothing else. *)
Lemma revive_unrevivable (j : json number) :
  unrevivable j = true → revive j = Throw TypeError.
Proof.
  unfold revive, Date_new.
  destruct j as [| | | | |m]; simpl; try done.
  destruct (get_prop (js "createdAt") m) as [c|]; [|done].
  by intros ->.
Qed.

Lemma revive_revivable (j : json number) :
  unrevivable j = false →
  revive j
  = Normal (set_prop (js "createdAt")
              (VDate (Date_of (match j with
                               | JObj m => get_prop (js "createdAt") m
                               | _ => None
                               end)))
              (prod_map (λ k, k) VJson <$> spread j)).
Proof.
  unfold revive, Date_new.
  destruct j as [| | | | |m]; simpl; try done.
  destruct (get_prop (js "createdAt") m) as [c|]; [|done].
  by intros ->.
Qed.

Lemma unrevivable_Task_toJSON (task : Task) :
  unrevivable (Task_toJSON task) = false.
Proof. by destruct task as [i x c []]. Qed.

Lemma map_throwing_Normal {A B} (f : A → completion B) (g : A → B)
  (xs : list A) :
  (∀ a, a ∈ xs → f a = Normal (g a)) →
  map_throwing f xs = Normal (g <$> xs).
Proof.
  induction xs as [|a xs IH]; intros Hf; [done|]. simpl.
  rewrite (Hf a) by (by left).
  rewrite IH; [done|]. intros b Hb. apply Hf. by right.
Qed.

Lemma map_throwing_unrevivable l :
  existsb unrevivable l = true → map_throwing revive l = Throw TypeError.
Proof.
  induction l as [|j l IH]; [done|]. cbn [existsb map_throwing].
  destruct (unrevivable j) eqn:Hj.
  - intros _. by rewrite revive_unrevivable.
  - intros Hl. rewrite revive_revivable by done. by rewrite (IH Hl).
Qed.

Lemma existsb_unrevivable_null l :
  JNull ∈ l → existsb unrevivable l = true.
Proof.
  intros Hin. apply existsb_exists. exists JNull. split; [|done].
  by apply list_elem_of_In.
Qed.

Lemma map_throwing_null l :
  JNull ∈ l → map_throwing revive l = Throw TypeError.
Proof.
  intros Hin. by apply map_throwing_unrevivable, existsb_unrevivable_null.
Qed.

Lemma get_set_prop_eq {V} (k : jsstring) (v : V) (o : list (jsstring * V)) :
  get_prop k (set_prop k v o) = Some v.
Proof.
  induction o as [|[k' v'] o IH]; simpl.
  - by rewrite decide_True.
  - destruct (decide (k' = k)) as [->|Hne]; simpl.
    + by rewrite decide_True.
    + by rewrite decide_False.
Qed.

Lemma get_set_prop_ne {V} (k k0 : jsstring) (v : V)
  (o : list (jsstring * V)) :
  k0 ≠ k → get_prop k0 (set_prop k v o) = get_prop k0 o.
Proof.
  intros Hne. induction o as [|[k' v'] o IH]; simpl.
  - by rewrite decide_False.
  - destruct (decide (k' = k)) as [->|Hk]; simpl.
    + by rewrite !decide_False by done.
    + destruct (decide (k' = k0)); [done|apply IH].
Qed.

Lemma get_prop_fmap {V W} (f : V → W) (k : jsstring)
  (o : list (jsstring * V)) :
  get_prop k (prod_map (λ k, k) f <$> o) = f <$> get_prop k o.
Proof.
  induction o as [|[k' v'] o IH]; [done|]. simpl.
  by destruct (decide (k' = k)).
Qed.

(** When the body of the [try] throws, the task array keeps its value and
    the exception goes to [console.error]. *)
Lemma load_effect_caught storage savedTasks (tasks0 : list (object number))
  e :
  storage !! js "todos" = Some savedTasks → savedTasks ≠ [] →
  parse_tasks savedTasks = Throw e →
  load_effect storage tasks0 = (tasks0, [e]).
Proof.
  intros Hget Hne%truthy_nonempty Hthrow. unfold load_effect.
  by rewrite Hget, Hne, Hthrow.
Qed.

Lemma load_readable storage savedTasks l :
  storage !! js "todos" = Some savedTasks → savedTasks ≠ [] →
  JSON_parse savedTasks = Some (JArr l) → existsb unrevivable l = false →
  load storage
  = (λ j, set_prop (js "createdAt")
            (VDate (Date_of (match j with
                             | JObj m => get_prop (js "createdAt") m
                             | _ => None
                             end)))
            (prod_map (λ k, k) VJson <$> spread j)) <$> l.
Proof.
  intros Hget Hne%truthy_nonempty Hparse Hnull.
  unfold load, load_effect, parse_tasks.
  rewrite Hget, Hne, Hparse.
  erewrite map_throwing_Normal; [done|].
  intros j Hj. apply revive_revivable.
  destruct (unrevivable j) eqn:Hbad; [|done].
  rewrite <- Hnull. symmetry. apply existsb_exists. exists j.
  split; [by apply list_elem_of_In|done].
Qed.

Lemma load_unreadable storage :
  (∀ savedTasks l,
     storage !! js "todos" = Some savedTasks → savedTasks ≠ [] →
     JSON_parse savedTasks = Some (JArr l) →
     existsb unrevivable l = true) →
  load storage = [].
Proof.
  intros Hbad. unfold load, load_effect.
  destruct (storage !! js "todos") as [savedTasks|] eqn:Hget; [|done].
  destruct (truthy savedTasks) eqn:Hne; [|done].
  apply truthy_nonempty in Hne.
  unfold parse_tasks.
  destruct (JSON_parse savedTasks) as [[| | | |l|]|] eqn:Hparse; try done.
  by rewrite map_throwing_unrevivable by eauto.
Qed.

Lemma load_task_records storage savedTasks (tasks : list Task) :
  storage !! js "todos" = Some savedTasks → savedTasks ≠ [] →
  JSON_parse savedTasks = Some (JArr (Task_toJSON <$> tasks)) →
  load storage
  = (λ task,
       [ (js "id", VJson (JStr (id task)));
         (js "text", VJson (JStr (text task)));
         (js "completed", VJson (JBool (completed task)));
         (js "createdAt",
          VDate (Date_of (Some (Date_toJSON (createdAt task))))) ])
    <$> tasks.
Proof.
  intros Hget Hne Hparse.
  rewrite (load_readable storage savedTasks _ Hget Hne Hparse).
  - by rewrite <- list_fmap_compose.
  - apply not_true_is_false.
    intros (j & (task & -> & _)%list_elem_of_In%list_elem_of_fmap & Hbad)
      %existsb_exists.
    by rewrite unrevivable_Task_toJSON in Hbad.
Qed.

(** A loaded object has a Date under [createdAt] and, under any other key,
    what the stored element has there. *)
Lemma loaded_object_props storage savedTasks l (k : nat)
  (j : json number) :
  storage !! js "todos" = Some savedTasks → savedTasks ≠ [] →
  JSON_parse savedTasks = Some (JArr l) → existsb unrevivable l = false →
  l !! k = Some j →
  ∃ o, load storage !! k = Some o
       ∧ (∃ d, get_prop (js "createdAt") o = Some (VDate d))
       ∧ ∀ key, key ≠ js "createdAt" →
                get_prop key o = VJson <$> get_prop key (spread j).
Proof.
  intros Hget Hne Hparse Hnull Hk.
  rewrite (load_readable storage savedTasks l) by done.
  rewrite list_lookup_fmap, Hk. simpl. eexists. split; [done|]. split.
  - eexists. apply get_set_prop_eq.
  - intros key Hkey. rewrite get_set_prop_ne by done. apply get_prop_fmap.
Qed.

End PersistenceFacts.

(** * Properties of the reference engine *)

Section ReferenceDates.
Import Reference.

Lemma digit_unit (k : Z) :
  0 ≤ k ≤ 9 →
  is_digit (Z.to_N (48 + k)) = true ∧ Z.of_N (Z.to_N (48 + k) - 48) = k.
Proof.
  intros Hk.
  assert (k = 0 ∨ k = 1 ∨ k = 2 ∨ k = 3 ∨ k = 4 ∨ k = 5 ∨ k = 6 ∨ k = 7
          ∨ k = 8 ∨ k = 9) as Hcases by lia.
  repeat (destruct Hcases as [->|Hcases]; [done|]). by subst.
Qed.

Lemma read_fixed_pad (w : nat) :
  ∀ (n acc : Z) (rest : jsstring),
    read_fixed w (pad w n ++ rest) acc
    = Some (acc * 10 ^ Z.of_nat w + n mod 10 ^ Z.of_nat w, rest).
Proof.
  induction w as [|w IH]; intros n acc rest.
  { simpl. rewrite Z.mod_1_r. do 2 f_equal. lia. }
  assert (0 < 10 ^ Z.of_nat w) as Hpow by (apply Z.pow_pos_nonneg; lia).
  cbn [pad read_fixed app].
  destruct (digit_unit ((n / 10 ^ Z.of_nat w) mod 10)) as [Hd Hv].
  { pose proof (Z.mod_pos_bound (n / 10 ^ Z.of_nat w) 10). lia. }
  rewrite Hd, Hv, IH. do 2 f_equal.
  rewrite Nat2Z.inj_succ, Z.pow_succ_r by lia.
  replace (10 * 10 ^ Z.of_nat w) with (10 ^ Z.of_nat w * 10) by ring.
  rewrite Z.rem_mul_r by lia. ring.
Qed.

Lemma read_fixed_pad_small (w : nat) (n : Z) (rest : jsstring) :
  0 ≤ n < 10 ^ Z.of_nat w →
  read_fixed w (pad w n ++ rest) 0 = Some (n, rest).
Proof.
  intros Hn. rewrite read_fixed_pad. by rewrite Z.mod_small.
Qed.

Lemma strip_prefix_app (p s : jsstring) : strip_prefix p (p ++ s) = Some s.
Proof.
  induction p as [|c p IH]; [done|]. simpl. by rewrite N.eqb_refl.
Qed.

Lemma read_field_pad (sep : string) (w : nat) (n : Z) (rest : jsstring) :
  0 ≤ n < 10 ^ Z.of_nat w →
  read_field sep w (js sep ++ pad w n ++ rest) = Some (n, rest).
Proof.
  intros Hn. unfold read_field.
  by rewrite strip_prefix_app, read_fixed_pad_small.
Qed.

Lemma pad_head_digit (w : nat) (n : Z) :
  ∃ c r, pad (S w) n = c :: r ∧ is_digit c = true.
Proof.
  eexists _, _. split; [done|].
  apply digit_unit.
  pose proof (Z.mod_pos_bound (n / 10 ^ Z.of_nat w) 10). lia.
Qed.

Lemma read_year_string (y : Z) (rest : jsstring) :
  -1000000 < y < 1000000 →
  read_year (year_string y ++ rest) = Some (y, rest).
Proof.
  intros Hy. unfold year_string.
  destruct ((0 <=? y) && (y <=? 9999)) eqn:Hsmall.
  - destruct (pad_head_digit 3 y) as (c & r & Hpad & Hc).
    pose proof (read_fixed_pad_small 4 y rest) as Hread.
    rewrite Hpad in *. simpl app. unfold read_year.
    unfold is_digit, in_range in Hc.
    destruct (N.eqb_spec c 43) as [->|_]; [done|].
    destruct (N.eqb_spec c 45) as [->|_]; [done|].
    apply Hread. lia.
  - destruct (Z.ltb_spec y 0).
    + change ((js "-" ++ pad 6 (Z.abs y)) ++ rest)
        with (45%N :: pad 6 (Z.abs y) ++ rest).
      unfold read_year. cbv beta iota.
      change (45 =? 43)%N with false. change (45 =? 45)%N with true.
      cbv beta iota.
      rewrite read_fixed_pad_small by lia. do 2 f_equal. lia.
    + change ((js "+" ++ pad 6 (Z.abs y)) ++ rest)
        with (43%N :: pad 6 (Z.abs y) ++ rest).
      unfold read_year. cbv beta iota.
      change (43 =? 43)%N with true. cbv beta iota.
      rewrite read_fixed_pad_small by lia. do 2 f_equal. lia.
Qed.

Lemma read_write_fields (f : Fields) :
  in_calendar f → read_fields (write_fields f) = Some f.
Proof.
  destruct f as [[[[[[y m] d] hh] mi] ss] ms].
  intros (Hy & Hm & Hd & Hhh & Hmi & Hss & Hms).
  unfold read_fields, write_fields.
  rewrite read_year_string by done. cbn [mbind option_bind].
  rewrite read_field_pad by done. cbn [mbind option_bind].
  rewrite read_field_pad by done. cbn [mbind option_bind].
  rewrite read_field_pad by done. cbn [mbind option_bind].
  rewrite read_field_pad by done. cbn [mbind option_bind].
  rewrite read_field_pad by done. cbn [mbind option_bind].
  rewrite <- (app_nil_r (js "Z")) at 1.
  rewrite read_field_pad by done. cbn [mbind option_bind].
  by rewrite decide_True.
Qed.

Lemma civil_days (z : Z) :
  let '(y, m, d) := civil_from_days z in
  days_from_civil y m d = z ∧ 1 ≤ m ≤ 12 ∧ 1 ≤ d ≤ 31
  ∧ (-100000000 ≤ z ≤ 100000000 → -1000000 < y < 1000000).
Proof.
  unfold civil_from_days, days_from_civil. cbv zeta.
  set (z' := z + 719468).
  set (era := z' / 146097).
  set (doe := z' - era * 146097).
  assert (0 ≤ doe < 146097) as Hdoe.
  { subst doe era. Z.to_euclidean_division_equations; lia. }
  assert (z = era * 146097 + doe - 719468) as Hz by (subst doe z'; lia).
  clearbody doe. clearbody era. clearbody z'.
  set (yoe := (doe - doe / 1460 + doe / 36524 - doe / 146096) / 365).
  set (doy := doe - (365 * yoe + yoe / 4 - yoe / 100)).
  assert (0 ≤ yoe ≤ 399 ∧ 0 ≤ doy ≤ 365) as [Hyoe Hdoy].
  { subst doy yoe. Z.to_euclidean_division_equations; lia. }
  assert (doe = yoe * 365 + yoe / 4 - yoe / 100 + doy) as Hdoe'
    by (subst doy; lia).
  clearbody doy. clearbody yoe.
  set (mp := (5 * doy + 2) / 153).
  assert (0 ≤ mp ≤ 11) as Hmp.
  { subst mp. Z.to_euclidean_division_equations; lia. }
  destruct (Z.ltb_spec mp 10) as [Hlt|Hge].
  - destruct (Z.leb_spec (mp + 3) 2); [lia|].
    destruct (Z.ltb_spec 2 (mp + 3)); [|lia].
    replace (mp + 3 - 3) with mp by lia.
    assert ((yoe + era * 400 + 0) / 400 = era) as Hera.
    { Z.to_euclidean_division_equations; lia. }
    rewrite Hera.
    replace (yoe + era * 400 + 0 - era * 400) with yoe by lia.
    subst mp. repeat split; Z.to_euclidean_division_equations; lia.
  - destruct (Z.leb_spec (mp - 9) 2); [|lia].
    destruct (Z.ltb_spec 2 (mp - 9)); [lia|].
    replace (mp - 9 + 9) with mp by lia.
    assert ((yoe + era * 400 + 1 - 1) / 400 = era) as Hera.
    { Z.to_euclidean_division_equations; lia. }
    rewrite Hera.
    replace (yoe + era * 400 + 1 - 1 - era * 400) with yoe by lia.
    subst mp. repeat split; Z.to_euclidean_division_equations; lia.
Qed.

Lemma fields_of_instant (tv : Z) :
  Z.abs tv ≤ max_time →
  in_calendar (fields_of tv) ∧ instant (fields_of tv) = tv.
Proof.
  intros Htv. unfold fields_of, instant, in_calendar.
  pose proof (civil_days (tv / ms_per_day)) as Hcivil.
  destruct (civil_from_days (tv / ms_per_day)) as [[y m] d].
  destruct Hcivil as (Hdays & Hm & Hd & Hy).
  rewrite Hdays. unfold max_time, ms_per_day in *.
  assert (-1000000 < y < 1000000) as Hy'
    by (apply Hy; Z.to_euclidean_division_equations; lia).
  repeat split; try lia; Z.to_euclidean_division_equations; lia.
Qed.

(** The reference engine reads the ISO string of a valid time value as that
    time value. *)
Lemma Date_parse_toISOString (tv : Z) :
  Z.abs tv ≤ max_time → Date_parse (toISOString tv) = DateAt tv.
Proof.
  intros Htv. destruct (fields_of_instant tv Htv) as [Hcal Hinst].
  unfold Date_parse. unfold toISOString at 1.
  rewrite read_write_fields by done. rewrite Hinst.
  rewrite decide_True by done.
  unfold TimeClip. destruct (Z.leb_spec (Z.abs tv) max_time); [done|lia].
Qed.

End ReferenceDates.

Section ReferenceJson.
Import Reference.
Local Open Scope N_scope.

Lemma unhex_hex_digit (k : N) : k < 16 → unhex (hex_digit k) = Some k.
Proof.
  intros Hk.
  assert (k = 0 ∨ k = 1 ∨ k = 2 ∨ k = 3 ∨ k = 4 ∨ k = 5 ∨ k = 6 ∨ k = 7
          ∨ k = 8 ∨ k = 9 ∨ k = 10 ∨ k = 11 ∨ k = 12 ∨ k = 13 ∨ k = 14
          ∨ k = 15) as Hcases by lia.
  repeat (destruct Hcases as [->|Hcases]; [done|]). by subst.
Qed.

Lemma hex_digits_value (c : N) :
  c < 65536 →
  (c / 4096 mod 16) * 4096 + (c / 256 mod 16) * 256 + (c / 16 mod 16) * 16
  + c mod 16 = c.
Proof. intros Hc. zify. Z.to_euclidean_division_equations. lia. Qed.

Lemma read_string_unicode (c : N) (rest acc : jsstring) :
  c < 65536 →
  read_string (unicode_escape c ++ rest) acc = read_string rest (c :: acc).
Proof.
  intros Hc. unfold unicode_escape. cbn [app read_string].
  change (92 =? 34) with false. change (92 =? 92) with true.
  change (117 =? 117) with true. cbv beta iota.
  rewrite !unhex_hex_digit by (apply N.mod_lt; lia).
  by rewrite hex_digits_value.
Qed.

Lemma read_string_literal (c : N) (rest acc : jsstring) :
  c ≠ 34 → c ≠ 92 → 32 ≤ c →
  read_string (c :: rest) acc = read_string rest (c :: acc).
Proof.
  intros H34 H92 H32. cbn [read_string].
  destruct (N.eqb_spec c 34); [done|].
  destruct (N.eqb_spec c 92); [done|].
  destruct (N.ltb_spec c 32); [lia|done].
Qed.

Lemma read_string_escape_unit (c : N) (rest acc : jsstring) :
  read_string (escape_unit c ++ rest) acc = read_string rest (c :: acc).
Proof.
  unfold escape_unit.
  destruct (N.eqb_spec c 34) as [->|?]; [done|].
  destruct (N.eqb_spec c 92) as [->|?]; [done|].
  destruct (N.eqb_spec c 8) as [->|?]; [done|].
  destruct (N.eqb_spec c 9) as [->|?]; [done|].
  destruct (N.eqb_spec c 10) as [->|?]; [done|].
  destruct (N.eqb_spec c 12) as [->|?]; [done|].
  destruct (N.eqb_spec c 13) as [->|?]; [done|].
  destruct (_ || _) eqn:Hesc.
  - apply read_string_unicode. unfold in_range in Hesc.
    apply orb_prop in Hesc as [H%N.ltb_lt|[_ H%N.leb_le]%andb_prop]; lia.
  - apply orb_false_elim in Hesc as [H%N.ltb_ge _].
    by apply read_string_literal.
Qed.

(** Reading back the body of a string literal. *)
Lemma read_quote_units_upto (n : nat) :
  ∀ (s rest acc : jsstring),
    (length s ≤ n)%nat →
    read_string (quote_units s ++ 34 :: rest) acc = Some (rev acc ++ s, rest).
Proof.
  induction n as [|n IH]; intros s rest acc Hlen.
  { destruct s; [|simpl in Hlen; lia]. simpl. by rewrite app_nil_r. }
  destruct s as [|c r]; [simpl; by rewrite app_nil_r|].
  simpl in Hlen.
  assert (rev acc ++ c :: r = rev (c :: acc) ++ r) as ->
    by (simpl; by rewrite <- app_assoc).
  cbn [quote_units].
  destruct (in_range 55296 56319 c) eqn:Hhigh.
  - unfold in_range in Hhigh.
    apply andb_prop in Hhigh as [Hlo%N.leb_le Hhi%N.leb_le].
    destruct r as [|d r'].
    + rewrite read_string_unicode by lia.
      apply (IH [] rest). simpl. lia.
    + destruct (in_range 56320 57343 d) eqn:Hlow.
      * unfold in_range in Hlow.
        apply andb_prop in Hlow as [Hlo'%N.leb_le Hhi'%N.leb_le].
        cbn [app]. rewrite !read_string_literal by lia.
        rewrite IH by (simpl in Hlen; lia).
        simpl. by rewrite <- !app_assoc.
      * rewrite <- app_assoc, read_string_unicode by lia.
        apply IH. lia.
  - rewrite <- app_assoc, read_string_escape_unit. apply IH. lia.
Qed.

Lemma read_quote_units (s rest : jsstring) :
  read_string (quote_units s ++ 34 :: rest) [] = Some (s, rest).
Proof. by apply (read_quote_units_upto (length s)). Qed.

Lemma quote_app (s rest : jsstring) :
  quote s ++ rest = 34 :: quote_units s ++ 34 :: rest.
Proof. unfold quote. simpl. by rewrite <- app_assoc. Qed.

Lemma read_value_unfold (fuel : nat) (s : jsstring) :
  read_value (S fuel) s
  = match skip_ws s with
    | [] => None
    | c :: r =>
        if c =? 34 then
          match read_string r [] with
          | Some (x, r') => Some (JStr x, r')
          | None => None
          end
        else if c =? 91 then
          match skip_ws r with
          | d :: r' =>
              if d =? 93 then Some (JArr [], r')
              else read_elements fuel r []
          | [] => None
          end
        else if c =? 123 then
          match skip_ws r with
          | d :: r' =>
              if d =? 125 then Some (JObj [], r')
              else read_members fuel r []
          | [] => None
          end
        else
          match strip_prefix (js "null") (c :: r) with
          | Some r' => Some (JNull, r')
          | None =>
          match strip_prefix (js "true") (c :: r) with
          | Some r' => Some (JBool true, r')
          | None =>
          match strip_prefix (js "false") (c :: r) with
          | Some r' => Some (JBool false, r')
          | None =>
          match read_number (c :: r) with
          | Some (n, r') => Some (JNum n, r')
          | None => None
          end end end end
    end.
Proof. done. Qed.

Lemma read_elements_unfold (fuel : nat) (s : jsstring) (acc : list (json Z)) :
  read_elements (S fuel) s acc
  = match read_value fuel s with
    | None => None
    | Some (v, r) =>
        match skip_ws r with
        | d :: r' =>
            if d =? 44 then read_elements fuel r' (v :: acc)
            else if d =? 93 then Some (JArr (rev (v :: acc)), r')
            else None
        | [] => None
        end
    end.
Proof. done. Qed.

Lemma read_members_unfold (fuel : nat) (s : jsstring)
  (acc : list (jsstring * json Z)) :
  read_members (S fuel) s acc
  = match skip_ws s with
    | q :: r0 =>
        if q =? 34 then
          match read_string r0 [] with
          | None => None
          | Some (k, r1) =>
              match skip_ws r1 with
              | c :: r2 =>
                  if c =? 58 then
                    match read_value fuel r2 with
                    | None => None
                    | Some (v, r3) =>
                        match skip_ws r3 with
                        | d :: r' =>
                            if d =? 44
                            then read_members fuel r' (set_prop k v acc)
                            else if d =? 125
                            then Some (JObj (set_prop k v acc), r')
                            else None
                        | [] => None
                        end
                    end
                  else None
              | [] => None
              end
          end
        else None
    | [] => None
    end.
Proof. done. Qed.

(** A string, [true], [false] and [null] are read back. *)
Lemma read_value_string (fuel : nat) (s rest : jsstring) :
  read_value (S fuel) (quote s ++ rest) = Some (JStr s, rest).
Proof.
  rewrite read_value_unfold, quote_app. cbn [skip_ws].
  change (is_json_ws 34) with false. cbv beta iota.
  change (34 =? 34) with true. cbv beta iota.
  by rewrite read_quote_units.
Qed.

Lemma read_value_bool (fuel : nat) (b : bool) (rest : jsstring) :
  read_value (S fuel) (stringify (JBool b) ++ rest) = Some (JBool b, rest).
Proof. rewrite read_value_unfold. by destruct b. Qed.

Lemma read_value_null (fuel : nat) (rest : jsstring) :
  read_value (S fuel) (stringify JNull ++ rest) = Some (JNull, rest).
Proof. by rewrite read_value_unfold. Qed.

(** One member of an object, followed by a comma or by the closing brace. *)
Lemma read_member (fuel : nat) (k vt rest : jsstring) (v : json Z)
  (d : N) (acc : list (jsstring * json Z)) :
  is_json_ws d = false →
  read_value fuel (vt ++ d :: rest) = Some (v, d :: rest) →
  read_members (S fuel) (34 :: quote_units k ++ 34 :: 58 :: vt ++ d :: rest)
    acc
  = if d =? 44 then read_members fuel rest (set_prop k v acc)
    else if d =? 125 then Some (JObj (set_prop k v acc), rest)
    else None.
Proof.
  intros Hd Hv.
  rewrite read_members_unfold. cbn [skip_ws].
  change (is_json_ws 34) with false. cbv beta iota.
  change (34 =? 34) with true. cbv beta iota.
  rewrite read_quote_units. cbn [skip_ws].
  change (is_json_ws 58) with false. cbv beta iota.
  change (58 =? 58) with true. cbv beta iota.
  rewrite Hv. cbn [skip_ws]. by rewrite Hd.
Qed.

Local Abbreviation task_json := (Task_toJSON (P := engine)).

(** The text of a task record, member by member. *)
Lemma stringify_task (task : Task) (rest : jsstring) :
  stringify (task_json task) ++ rest
  = 123 :: 34 :: quote_units (js "id") ++ 34 :: 58 ::
      quote (id task) ++ 44 ::
    34 :: quote_units (js "text") ++ 34 :: 58 ::
      quote (text task) ++ 44 ::
    34 :: quote_units (js "completed") ++ 34 :: 58 ::
      stringify (JBool (completed task)) ++ 44 ::
    34 :: quote_units (js "createdAt") ++ 34 :: 58 ::
      stringify (Date_toJSON (P := engine) (createdAt task)) ++ 125 :: rest.
Proof.
  unfold Task_toJSON.
  cbn [stringify map join_comma]. unfold quote.
  repeat (rewrite <- app_assoc || cbn [app]). done.
Qed.

Lemma read_value_date (fuel : nat) (d : Date) (rest : jsstring) :
  read_value (S fuel) (stringify (Date_toJSON (P := engine) d) ++ rest)
  = Some (Date_toJSON (P := engine) d, rest).
Proof.
  destruct d as [tv|]; [apply read_value_string|apply read_value_null].
Qed.

Lemma read_task (fuel : nat) (task : Task) (rest : jsstring) :
  read_value (6 + fuel) (stringify (task_json task) ++ rest)
  = Some (task_json task, rest).
Proof.
  rewrite stringify_task. cbn [Nat.add].
  rewrite read_value_unfold. cbn [skip_ws].
  change (is_json_ws 123) with false. cbv beta iota.
  change (123 =? 34) with false. change (123 =? 91) with false.
  change (123 =? 123) with true. cbv beta iota.
  cbn [skip_ws]. change (is_json_ws 34) with false. cbv beta iota.
  change (34 =? 125) with false. cbv beta iota.
  rewrite (read_member _ _ _ _ (JStr (id task)) 44)
    by (done || apply read_value_string).
  change (44 =? 44) with true. cbv beta iota.
  rewrite (read_member _ _ _ _ (JStr (text task)) 44)
    by (done || apply read_value_string).
  change (44 =? 44) with true. cbv beta iota.
  rewrite (read_member _ _ _ _ (JBool (completed task)) 44)
    by (done || apply read_value_bool).
  change (44 =? 44) with true. cbv beta iota.
  rewrite (read_member _ _ _ _ (Date_toJSON (P := engine) (createdAt task))
             125)
    by (done || apply read_value_date).
  done.
Qed.

Lemma read_tasks (tasks : list Task) :
  ∀ (task : Task) (fuel : nat) (acc : list (json Z)) (rest : jsstring),
    (length tasks + 7 ≤ fuel)%nat →
    read_elements fuel
      (join_comma (map stringify (task_json <$> task :: tasks)) ++ 93 :: rest)
      acc
    = Some (JArr (rev acc ++ (task_json <$> task :: tasks)), rest).
Proof.
  induction tasks as [|task' tasks IH]; intros task fuel acc rest Hfuel.
  - simpl in Hfuel.
    destruct fuel as [|fuel]; [lia|]. rewrite read_elements_unfold.
    replace fuel with (6 + (fuel - 6))%nat by lia.
    cbn [fmap list_fmap map join_comma].
    rewrite read_task. cbn [skip_ws].
    change (is_json_ws 93) with false. cbv beta iota.
    change (93 =? 44) with false. change (93 =? 93) with true.
    cbv beta iota. simpl. done.
  - simpl in Hfuel.
    destruct fuel as [|fuel]; [lia|]. rewrite read_elements_unfold.
    change (join_comma (map stringify (task_json <$> task :: task' :: tasks)))
      with (stringify (task_json task)
            ++ 44 :: join_comma (map stringify (task_json <$> task' :: tasks))).
    rewrite <- app_assoc. cbn [app].
    replace fuel with (6 + (fuel - 6))%nat at 1 by lia.
    rewrite read_task. cbn [skip_ws].
    change (is_json_ws 44) with false. cbv beta iota.
    change (44 =? 44) with true. cbv beta iota.
    rewrite IH by lia. simpl. by rewrite <- app_assoc.
Qed.

Lemma join_comma_length (l : list jsstring) :
  Forall (λ x, (1 ≤ length x)%nat) l → (length l ≤ length (join_comma l))%nat.
Proof.
  induction 1 as [|x l Hx Hl IH]; [done|].
  destruct l as [|y l]; [simpl; lia|].
  change (join_comma (x :: y :: l)) with (x ++ 44 :: join_comma (y :: l)).
  rewrite length_app. simpl in *. lia.
Qed.

(** The reference engine reads back the text it writes for a task array. *)
Lemma parse_stringify_tasks (tasks : list Task) :
  parse (stringify (JArr (task_json <$> tasks)))
  = Some (JArr (task_json <$> tasks)).
Proof.
  destruct tasks as [|task tasks]; [done|].
  unfold parse.
  set (text := stringify (JArr (task_json <$> task :: tasks))).
  assert (text = 91 :: join_comma (map stringify (task_json <$> task :: tasks))
                 ++ [93]) as Htext by done.
  assert (length tasks + 3 ≤ length text)%nat as Hlen.
  { rewrite Htext. cbn [length]. rewrite length_app. cbn [length].
    pose proof (join_comma_length
                  (map stringify (task_json <$> task :: tasks))) as Hjoin.
    rewrite length_map, length_fmap in Hjoin. cbn [length] in Hjoin.
    cut (S (length tasks) ≤ length
           (join_comma (map stringify (task_json <$> task :: tasks))))%nat;
      [lia|].
    apply Hjoin. clear. generalize (task :: tasks). intros ts.
    induction ts as [|t ts IHts]; constructor; [|done].
    pose proof (stringify_task t []) as Hx. rewrite app_nil_r in Hx.
    rewrite Hx. cbn [length]. lia. }
  replace (2 * length text + 2)%nat with (S (2 * length text + 1)) by lia.
  rewrite read_value_unfold. rewrite Htext at 1. cbn [skip_ws].
  change (is_json_ws 91) with false. cbv beta iota.
  change (91 =? 34) with false. change (91 =? 91) with true. cbv beta iota.
  pose proof (stringify_task task) as Hhead.
  cbn [fmap list_fmap map].
  destruct tasks as [|task' tasks].
  - cbn [join_comma]. rewrite Hhead. cbn [skip_ws].
    change (is_json_ws 123) with false. cbv beta iota.
    change (123 =? 93) with false. cbv beta iota.
    rewrite <- Hhead.
    rewrite (read_tasks [] task) by (cbn [length] in *; lia). done.
  - change (join_comma (stringify (task_json task)
                        :: map stringify (task_json <$> task' :: tasks)))
      with (stringify (task_json task)
            ++ 44 :: join_comma (map stringify (task_json <$> task' :: tasks))).
    rewrite <- app_assoc. rewrite Hhead. cbn [skip_ws].
    change (is_json_ws 123) with false. cbv beta iota.
    change (123 =? 93) with false. cbv beta iota.
    rewrite <- Hhead. cbn [app].
    pose proof (read_tasks (task' :: tasks) task (2 * length text + 1) [] [])
      as Hread.
    change (join_comma (map stringify (task_json <$> task :: task' :: tasks)))
      with (stringify (task_json task)
            ++ 44 :: join_comma (map stringify (task_json <$> task' :: tasks)))
      in Hread.
    rewrite <- app_assoc in Hread. cbn [app] in Hread.
    rewrite Hread by lia. done.
Qed.
End ReferenceJson.

Example load_garbage :
  load_effect (P := Reference.engine) stored_garbage [] = ([], [SyntaxError]).
Proof. vm_compute. reflexivity. Qed.

Example load_stranger :
  load_effect (P := Reference.engine) stored_stranger []
  = ([ [ (js "createdAt", VDate InvalidDate) ] ], []).
Proof. vm_compute. reflexivity. Qed.

(** A [createdAt] that is an object with an own [toString] makes [new Date]
    throw in the [try], and the component stays without tasks. *)
Example parse_unconvertible :
  (λ savedTasks, JSON_parse (Platform := Reference.engine) savedTasks)
    <$> (stored_unconvertible !! js "todos")
  = Some (Some (JArr [ JObj [ (js "createdAt",
                               JObj [ (js "toString", JNum 0) ]) ] ])).
Proof. vm_compute. reflexivity. Qed.

Example load_unconvertible :
  load_effect (P := Reference.engine) stored_unconvertible []
  = ([], [TypeError]).
Proof. vm_compute. reflexivity. Qed.

(** C8, as the spec has it, fails: ["[{}]"] is not the serialized form of any
    task array, and loading it gives an array of one object. *)
Lemma load_keeps_stranger :
  ¬ ((¬ ∃ tasks : list Task,
          JSON_parse (Platform := Reference.engine) (js "[{}]")
          = Some (JArr (Task_toJSON <$> tasks))) →
     load (P := Reference.engine) stored_stranger = []).
Proof.
  intros H.
  assert (load (P := Reference.engine) stored_stranger
          = [ [ (js "createdAt", VDate InvalidDate) ] ]) as Hload
    by (vm_compute; reflexivity).
  rewrite Hload in H. discriminate H.
  intros [tasks Hparse].
  assert (JSON_parse (Platform := Reference.engine) (js "[{}]")
          = Some (JArr [JObj []])) as Hval by (vm_compute; reflexivity).
  rewrite Hval in Hparse. by destruct tasks as [|? [|? ?]].
Qed.

(** C8, as the code has it.  The load effect never lets an exception out: an
    exception of its [try] block goes to [console.error] and the task array
    keeps its value.  A component mounted on a storage whose ["todos"] entry
    is absent, empty, not JSON text, not an array, or an array with an element
    on which the callback throws, starts with no task; the callback throws on
    [null] and on an object whose [createdAt] is an object or array that
    [new Date] cannot convert to a primitive.  Any other stored array is taken
    as it is, without a check of its elements: each becomes an object with the
    properties that spreading gives and a [createdAt] that is a Date object,
    made by [new Date] from the stored [createdAt].  For the serialized form
    of a task array these are the task records with [createdAt] a Date. *)
Theorem load_masks_failures {P : Platform} (storage : Storage) :
  (∀ tasks0 : list (object number),
     (load_effect storage tasks0).2 = []
     ∨ ∃ e, load_effect storage tasks0 = (tasks0, [e]))
  ∧ ((∀ savedTasks l,
        storage !! js "todos" = Some savedTasks → savedTasks ≠ [] →
        JSON_parse savedTasks = Some (JArr l) →
        existsb unrevivable l = true) →
     load storage = [])
  ∧ (∀ savedTasks l,
       storage !! js "todos" = Some savedTasks → savedTasks ≠ [] →
       JSON_parse savedTasks = Some (JArr l) →
       existsb unrevivable l = false →
       load storage
       = (λ j, set_prop (js "createdAt")
                 (VDate (Date_of (match j with
                                  | JObj m => get_prop (js "createdAt") m
                                  | _ => None
                                  end)))
                 (prod_map (λ k, k) VJson <$> spread j)) <$> l)
  ∧ (∀ savedTasks (tasks : list Task),
       storage !! js "todos" = Some savedTasks → savedTasks ≠ [] →
       JSON_parse savedTasks = Some (JArr (Task_toJSON <$> tasks)) →
       load storage
       = (λ task,
            [ (js "id", VJson (JStr (id task)));
              (js "text", VJson (JStr (text task)));
              (js "completed", VJson (JBool (completed task)));
              (js "createdAt",
               VDate (Date_of (Some (Date_toJSON (createdAt task))))) ])
         <$> tasks).
Proof.
  split; [|split; [|split]].
  - intros tasks0. unfold load_effect.
    destruct (storage !! js "todos") as [savedTasks|]; [|by left].
    destruct (truthy savedTasks); [|by left].
    destruct (parse_tasks savedTasks) as [parsed|e]; [by left|].
    right. by exists e.
  - apply load_unreadable.
  - apply load_readable.
  - apply load_task_records.
Qed.

Lemma load_masks_failures_witness :
  load (P := Reference.engine) stored_garbage = []
  ∧ load (P := Reference.engine) stored_unconvertible = []
  ∧ load (P := Reference.engine) saved_shopping
    = [ [ (js "id", VJson (JStr (js "1700000000777")));
          (js "text", VJson (JStr (js "Buy eggs")));
          (js "completed", VJson (JBool false));
          (js "createdAt", VDate (DateAt 1700000000777)) ];
        [ (js "id", VJson (JStr (js "1700000000000")));
          (js "text", VJson (JStr (js "Buy milk")));
          (js "completed", VJson (JBool false));
          (js "createdAt", VDate (DateAt 1700000000000)) ] ].
Proof.
  split; [|split].
  - apply (proj1 (proj2 (load_masks_failures stored_garbage))).
    unfold stored_garbage.
    intros savedTasks l [_ <-]%lookup_singleton_Some _ Hparse.
    vm_compute in Hparse. discriminate Hparse.
  - apply (proj1 (proj2 (load_masks_failures stored_unconvertible))).
    unfold stored_unconvertible.
    intros savedTasks l [_ <-]%lookup_singleton_Some _ Hparse.
    vm_compute in Hparse. injection Hparse as <-.
    vm_compute. reflexivity.
  - erewrite (proj2 (proj2 (proj2 (load_masks_failures saved_shopping)))
                _ [eggs; milk]);
      [vm_compute; reflexivity | vm_compute; reflexivity | done
      | vm_compute; reflexivity].
Defined.

(** On any engine, loading what [save] wrote gives back the task array when
    the engine reads back the text it wrote for this array and the ISO strings
    of the dates in it, and does not take the empty text for JSON. *)
Lemma load_save_reads_back {P : Platform} (tasks : list Task)
  (storage : Storage) :
  JSON_parse [] = None →
  JSON_parse (JSON_stringify (JArr (Task_toJSON <$> tasks)))
  = Some (JArr (Task_toJSON <$> tasks)) →
  Forall (λ task, reads_back (createdAt task)) tasks →
  save tasks storage !! js "todos"
  = Some (JSON_stringify (JArr (Task_toJSON <$> tasks)))
  ∧ (∀ key, key ≠ js "todos" → save tasks storage !! key = storage !! key)
  ∧ load (save tasks storage) = Task_object <$> tasks.
Proof.
  intros Hempty Hparse Hdates.
  assert (save tasks storage !! js "todos"
          = Some (JSON_stringify (JArr (Task_toJSON <$> tasks)))) as Hget
    by apply lookup_insert_eq.
  split; [done|]. split.
  { intros key Hkey. by apply lookup_insert_ne. }
  rewrite (load_task_records _ _ tasks Hget); [| |done].
  - apply list_fmap_ext. intros k task Hk.
    eapply Forall_lookup_1 in Hdates; [|done].
    unfold Task_object. do 4 f_equal.
    destruct (createdAt task) as [tv|]; [|done]. simpl.
    by rewrite Hdates.
  - intros Hnil. rewrite Hnil, Hempty in Hparse. discriminate Hparse.
Qed.

(** C9. Loading what [save] wrote gives back the task array, for every array
    of tasks whose dates are valid (a time value of magnitude at most
    8.64e15): [save] puts the serialized array under the key ["todos"] and
    leaves every other key alone, and a component mounted on that storage
    holds the objects of the saved tasks, in their order, each [createdAt] a
    Date of the same instant.  A time value is a whole number of
    milliseconds, which the ISO string keeps, so nothing is lost. *)
Theorem load_save_roundtrip (tasks : list Task) (storage : Storage) :
  Forall (λ task, ∃ tv, createdAt task = DateAt tv
                        ∧ Z.abs tv ≤ Reference.max_time) tasks →
  save (P := Reference.engine) tasks storage !! js "todos"
  = Some (Reference.stringify
            (JArr (Task_toJSON (P := Reference.engine) <$> tasks)))
  ∧ (∀ key, key ≠ js "todos" →
            save (P := Reference.engine) tasks storage !! key = storage !! key)
  ∧ load (P := Reference.engine) (save (P := Reference.engine) tasks storage)
    = Task_object (P := Reference.engine) <$> tasks.
Proof.
  intros Hvalid.
  apply (load_save_reads_back (P := Reference.engine)).
  - reflexivity.
  - apply parse_stringify_tasks.
  - eapply Forall_impl; [exact Hvalid|].
    intros task (tv & -> & Htv). by apply Date_parse_toISOString.
Qed.

Lemma load_save_roundtrip_witness :
  load (P := Reference.engine) (save (P := Reference.engine) [eggs; milk] ∅)
  = Task_object (P := Reference.engine) <$> [eggs; milk].
Proof.
  refine (proj2 (proj2 (load_save_roundtrip [eggs; milk] ∅ _))).
  repeat (apply Forall_cons; split;
          [eexists; split; [reflexivity|by vm_compute]|]).
  apply Forall_nil_2.
Defined.

(** A task whose date is invalid does not come back as it was: its date is
    written as [null], which [new Date] reads as the epoch. *)
Example invalid_date_reloads_as_epoch :
  load (P := Reference.engine)
    (save (P := Reference.engine)
       [ {| id := js "1"; text := js "x"; completed := false;
            createdAt := InvalidDate |} ] ∅)
  = [ [ (js "id", VJson (JStr (js "1")));
        (js "text", VJson (JStr (js "x")));
        (js "completed", VJson (JBool false));
        (js "createdAt", VDate (DateAt 0)) ] ].
Proof. vm_compute. reflexivity. Qed.

(** * Further properties of the component *)

Section Trim.

Lemma trimStart_no_lead (s : jsstring) : no_lead (trimStart s).
Proof.
  induction s as [|c r IH]; [done|]. simpl.
  by destruct (is_white_space c) eqn:Hc.
Qed.

Lemma trimStart_fixed (s : jsstring) : no_lead s → trimStart s = s.
Proof. destruct s as [|c r]; [done|]. simpl. by intros ->. Qed.

Lemma trimStart_idem (s : jsstring) : trimStart (trimStart s) = trimStart s.
Proof. apply trimStart_fixed, trimStart_no_lead. Qed.

Lemma trimStart_split (s : jsstring) :
  ∃ w, s = w ++ trimStart s ∧ forallb is_white_space w = true.
Proof.
  induction s as [|c r (w & Hr & Hw)]; [by exists []|]. simpl.
  destruct (is_white_space c) eqn:Hc.
  - exists (c :: w). simpl. rewrite Hc, Hw. by rewrite <- Hr.
  - by exists [].
Qed.

Lemma trim_no_lead (s : jsstring) : no_lead (trim s).
Proof.
  unfold trim, trimEnd.
  pose proof (trimStart_no_lead s) as Ha.
  destruct (trimStart_split (rev (trimStart s))) as (w & Hsplit & _).
  apply (f_equal (@rev N)) in Hsplit.
  rewrite rev_involutive, rev_app_distr in Hsplit.
  destruct (rev (trimStart (rev (trimStart s)))) as [|c t]; [done|].
  rewrite Hsplit in Ha. exact Ha.
Qed.

Lemma trim_idem (s : jsstring) : trim (trim s) = trim s.
Proof.
  pose proof (trim_no_lead s) as Hlead.
  unfold trim at 1. rewrite (trimStart_fixed _ Hlead).
  unfold trimEnd, trim, trimEnd. rewrite rev_involutive, trimStart_idem.
  done.
Qed.

End Trim.

Section Texts.
Implicit Types (s : State) (e : Event) (es : list Event).

Lemma kept_text_trim (x : jsstring) : trim x ≠ [] → kept_text (trim x).
Proof. intros Hx. split; [done|apply trim_idem]. Qed.

Lemma step_keeps_texts e s :
  Forall (λ task, kept_text (text task)) (tasks s) →
  Forall (λ task, kept_text (text task)) (tasks (step e s)).
Proof.
  intros Hs. destruct e; unfold step, handle; simpl; try done.
  - unfold addTask. destruct (truthy _) eqn:Hx; [|done]. simpl.
    apply Forall_cons. split; [|done].
    apply kept_text_trim. by apply truthy_nonempty.
  - apply Forall_fmap. eapply Forall_impl; [exact Hs|].
    intros task Ht. simpl. by destruct (decide _).
  - apply Forall_forall. intros task [_ Hin]%list_elem_of_filter.
    by eapply Forall_forall in Hs.
  - unfold saveEdit. destruct (truthy (trim _)) eqn:Hx; [|done].
    destruct (truthy_opt _); [|done]. simpl.
    apply Forall_fmap. eapply Forall_impl; [exact Hs|].
    intros task Ht. simpl. destruct (decide _); [|done]. simpl.
    apply kept_text_trim. by apply truthy_nonempty.
Qed.

End Texts.

(** X1. The text of a task is never empty and never has white space at
    either end: [addTask] and [saveEdit] store a trimmed text behind a guard
    on its being non-empty, and nothing else writes a text.  So from a store
    whose texts are so, every sequence of events leads to one. *)
Theorem texts_stay_trimmed (es : list Event) (s : State) :
  Forall (λ task, kept_text (text task)) (tasks s) →
  Forall (λ task, kept_text (text task)) (tasks (run es s)).
Proof.
  revert s. induction es as [|e es IH]; intros s Hs; [done|].
  rewrite run_cons. by apply IH, step_keeps_texts.
Qed.

Lemma texts_stay_trimmed_witness :
  Forall (λ task, kept_text (text task)) (tasks (run edit_by_hand initial)).
Proof. apply (texts_stay_trimmed edit_by_hand initial), Forall_nil_2. Defined.

(** X2. The numbers of the statistics add up: every task is counted as
    pending or as done and never as both, so Pending plus Done is Total, and
    either list keeps the order of the task array. *)
Theorem stats_partition (s : State) :
  (length (pendingTasks s) + length (completedTasks s) = length (tasks s))%nat
  ∧ (∀ task, task ∈ completedTasks s ↔ task ∈ tasks s ∧ completed task = true)
  ∧ (∀ task, task ∈ pendingTasks s ↔ task ∈ tasks s ∧ completed task = false)
  ∧ completedTasks s `sublist_of` tasks s
  ∧ pendingTasks s `sublist_of` tasks s.
Proof.
  unfold pendingTasks, completedTasks.
  split; [|split; [|split; [|split]]].
  - induction (tasks s) as [|task l IH]; [done|].
    rewrite !filter_cons.
    destruct (completed task); repeat case_decide; simpl; try done; lia.
  - intros task. rewrite list_elem_of_filter. tauto.
  - intros task. rewrite list_elem_of_filter.
    destruct (completed task); split; intros []; split; done.
  - apply sublist_filter.
  - apply sublist_filter.
Qed.

Section Compose.
Implicit Types (i j : jsstring) (l : list Task) (s : State).

Local Abbreviation toggle_one i :=
  (λ task : Task, if decide (id task = i)
                  then with_completed (negb (completed task)) task
                  else task).

Lemma toggle_one_id i task : id (toggle_one i task) = id task.
Proof. simpl. by destruct (decide _). Qed.

Lemma toggle_one_comm i j task :
  toggle_one i (toggle_one j task) = toggle_one j (toggle_one i task).
Proof.
  simpl. destruct (decide (id task = j)) as [Hj|Hj];
    destruct (decide (id task = i)) as [Hi|Hi]; simpl;
    repeat case_decide; done.
Qed.

Lemma filter_toggle i j l :
  filter (λ task, id task ≠ i) (toggle_one j <$> l)
  = toggle_one j <$> filter (λ task, id task ≠ i) l.
Proof.
  induction l as [|task l IH]; [done|].
  rewrite fmap_cons, !filter_cons, toggle_one_id.
  destruct (decide (id task ≠ i)); [|done]. by rewrite fmap_cons, IH.
Qed.

Lemma filter_toggle_same i l :
  filter (λ task, id task ≠ i) (toggle_one i <$> l)
  = filter (λ task, id task ≠ i) l.
Proof.
  rewrite filter_toggle. apply fmap_toggle_absent, filter_removes.
Qed.

End Compose.

(** X3. Toggles and deletes can be done in either order: two toggles, two
    deletes, and a toggle and a delete commute, whatever the ids; and a toggle
    of an id before its delete makes no difference. *)
Theorem toggle_delete_commute (i j : jsstring) (s : State) :
  (toggleTask i (toggleTask j s).1).1 = (toggleTask j (toggleTask i s).1).1
  ∧ (deleteTask i (deleteTask j s).1).1 = (deleteTask j (deleteTask i s).1).1
  ∧ (deleteTask i (toggleTask j s).1).1 = (toggleTask j (deleteTask i s).1).1
  ∧ (deleteTask i (toggleTask i s).1).1 = (deleteTask i s).1.
Proof.
  unfold toggleTask, deleteTask, setTasks; simpl.
  split; [|split; [|split]]; f_equal.
  - rewrite <- !list_fmap_compose. apply list_fmap_ext.
    intros ? task _. apply toggle_one_comm.
  - rewrite !list_filter_filter. apply list_filter_iff. tauto.
  - apply filter_toggle.
  - apply filter_toggle_same.
Qed.

Section Order.
Implicit Types (s : State) (e : Event) (es : list Event).

Lemma step_no_delete_ids e s :
  is_delete e = false → makes_id e s = None →
  id <$> tasks (step e s) = id <$> tasks s.
Proof.
  destruct e; simpl; intros Hdel He; unfold step, handle; try done.
  - unfold addTask. by destruct (truthy _).
  - simpl. apply ids_fmap_keep. intros task. by destruct (decide _).
  - unfold saveEdit. destruct (_ && _); [|done]. simpl.
    apply ids_fmap_keep. intros task. by destruct (decide _).
Qed.

Lemma length_step e s :
  (length (tasks (step e s))
   ≤ length (tasks s) + match makes_id e s with Some _ => 1 | None => 0 end)%nat.
Proof.
  destruct (makes_id e s) as [n|] eqn:He.
  - apply step_makes_id in He. apply (f_equal length) in He.
    rewrite length_fmap in He. simpl in He. rewrite length_fmap in He. lia.
  - apply step_makes_none, sublist_length in He.
    rewrite !length_fmap in He. lia.
Qed.

End Order.

(** X4. The task array is in order of creation, the newest first.  Take a
    run from a store with distinct ids, in which the clock readings turned
    into ids are distinct and none renders as an id the store started with.
    Then the ids are distinct in every state of the run, so that every render
    has distinct keys; as long as nothing is deleted, the ids in the store are
    those given out along the run, the last one first, followed by the ids the
    store started with; and with deletes the array has at most as many tasks
    as it started with and as were added. *)
Theorem newest_first (es : list Event) (s : State) :
  NoDup (id <$> tasks s) → NoDup (id_clock es s) →
  (∀ n, n ∈ id_clock es s → Number_toString n ∉ id <$> tasks s) →
  (∀ es1 es2, es = es1 ++ es2 → NoDup (id <$> tasks (run es1 s)))
  ∧ ((forallb (λ e, negb (is_delete e)) es = true →
      id <$> tasks (run es s)
      = rev (Number_toString <$> id_clock es s) ++ (id <$> tasks s))
     ∧ length (tasks (run es s))
       ≤ length (tasks s) + length (id_clock es s))%nat.
Proof.
  intros Hs Hclock Hfresh. split.
  { intros es1 es2 ->. by apply (run_prefix_ids es1 es2). }
  clear. revert s. induction es as [|e es IH]; intros s; [split; [done|simpl; lia]|].
  rewrite run_cons, id_clock_cons.
  destruct (IH (step e s)) as [IHids IHlen]. split.
  - simpl. intros [He Hes]%andb_prop. apply negb_true_iff in He.
    rewrite (IHids Hes).
    destruct (makes_id e s) as [n|] eqn:Hmk.
    + rewrite (step_makes_id _ _ _ Hmk). simpl.
      rewrite <- app_assoc. done.
    + by rewrite step_no_delete_ids.
  - pose proof (length_step e s) as Hstep.
    destruct (makes_id e s); simpl in *; lia.
Qed.

Lemma newest_first_witness :
  id <$> tasks (run edit_by_hand initial)
  = rev (Number_toString <$> id_clock edit_by_hand initial)
    ++ (id <$> tasks initial).
Proof.
  refine (proj1 (proj2 (newest_first edit_by_hand initial _ _ _)) _).
  - apply NoDup_nil_2.
  - refine (bool_decide_unpack _ _). vm_compute. exact I.
  - intros n _. simpl. apply not_elem_of_nil.
  - reflexivity.
Defined.

Section Single.
Implicit Types (i : jsstring) (l : list Task) (s : State).

(** With distinct ids, a map that changes the tasks with id [i] changes the
    one task that has it. *)
Lemma fmap_one_id (f : Task → Task) i l (k : nat) (task : Task) :
  NoDup (id <$> l) → l !! k = Some task → id task = i →
  (λ t, if decide (id t = i) then f t else t) <$> l = <[k := f task]> l.
Proof.
  intros Hnd Hk Hi. apply list_eq. intros j.
  rewrite list_lookup_fmap.
  destruct (decide (k = j)) as [<-|Hkj].
  - rewrite list_lookup_insert_eq by (by eapply lookup_lt_Some).
    rewrite Hk. simpl. by rewrite decide_True.
  - rewrite list_lookup_insert_ne by done.
    destruct (l !! j) as [t|] eqn:Hj; [|done]. simpl.
    rewrite decide_False; [done|]. intros Ht. apply Hkj.
    eapply (NoDup_lookup _ _ _ i Hnd); rewrite list_lookup_fmap.
    + by rewrite Hk, <- Hi.
    + by rewrite Hj, <- Ht.
Qed.

Lemma filter_one_id i l (k : nat) (task : Task) :
  NoDup (id <$> l) → l !! k = Some task → id task = i →
  filter (λ t, id t ≠ i) l = delete k l.
Proof.
  intros Hnd Hk Hi.
  rewrite <- (take_drop_middle l k task Hk) in Hnd |- *.
  rewrite fmap_app, fmap_cons in Hnd.
  apply NoDup_app in Hnd as (_ & Hleft & [Hright _]%NoDup_cons).
  rewrite filter_app, filter_cons_False by (by intros []).
  rewrite delete_take_drop.
  rewrite (take_drop_middle l k task Hk).
  rewrite !filter_absent; [done| |].
  - by rewrite <- Hi.
  - rewrite <- Hi. intros Hin. apply (Hleft _ Hin). by left.
Qed.

Lemma length_filter_insert (P : Task → Prop) `{!∀ t, Decision (P t)} l
  (k : nat) (task new : Task) :
  l !! k = Some task →
  (length (filter P (<[k := new]> l)) + (if decide (P task) then 1 else 0)
   = length (filter P l) + (if decide (P new) then 1 else 0))%nat.
Proof.
  intros Hk.
  rewrite insert_take_drop by (by eapply lookup_lt_Some).
  rewrite <- (take_drop_middle l k task Hk) at 3.
  rewrite !filter_app, !filter_cons, !length_app.
  destruct (decide (P task)), (decide (P new)); simpl; lia.
Qed.

End Single.

(** X5. In a store with pairwise distinct ids, a toggle and a delete touch
    one task: the toggle replaces the task at its position by the same task
    with the flag negated, which moves the Done count by one, and the delete
    removes that position, so the array is one shorter. *)
Theorem distinct_ids_one_task (s : State) (i : jsstring) (k : nat)
  (task : Task) :
  NoDup (id <$> tasks s) → tasks s !! k = Some task → id task = i →
  tasks (toggleTask i s).1
  = <[k := {| id := id task; text := text task;
              completed := negb (completed task);
              createdAt := createdAt task |}]> (tasks s)
  ∧ tasks (deleteTask i s).1 = delete k (tasks s)
  ∧ S (length (tasks (deleteTask i s).1)) = length (tasks s)
  ∧ (length (completedTasks (toggleTask i s).1)
     + (if completed task then 1 else 0)
     = length (completedTasks s) + (if completed task then 0 else 1))%nat.
Proof.
  intros Hnd Hk Hi.
  assert (tasks (toggleTask i s).1
          = <[k := with_completed (negb (completed task)) task]> (tasks s))
    as Htoggle.
  { rewrite toggleTask_tasks.
    by apply (fmap_one_id (λ t, with_completed (negb (completed t)) t)). }
  assert (tasks (deleteTask i s).1 = delete k (tasks s)) as Hdelete.
  { rewrite deleteTask_tasks. by apply (filter_one_id i _ k task). }
  split; [done|]. split; [done|]. split.
  - rewrite Hdelete, length_delete by done.
    apply lookup_lt_Some in Hk. lia.
  - unfold completedTasks. rewrite Htoggle.
    pose proof (length_filter_insert (λ t, completed t = true) (tasks s) k
                  task (with_completed (negb (completed task)) task) Hk)
      as Hcount.
    simpl in Hcount. destruct (completed task); simpl in *; lia.
Qed.

Lemma distinct_ids_one_task_witness :
  tasks (deleteTask (js "1700000000000") editing_eggs).1 = [eggs].
Proof.
  refine (proj1 (proj2 (distinct_ids_one_task editing_eggs
                          (js "1700000000000") 1%nat milk _ _ _))).
  - refine (bool_decide_unpack _ _). vm_compute. exact I.
  - reflexivity.
  - reflexivity.
Defined.

Section Editable.
Implicit Types (s : State) (e : Event) (es : list Event).

Lemma step_keeps_truthy_ids e s :
  Forall (λ i, truthy i = true) (id <$> tasks s) →
  Forall (λ i, truthy i = true) (id <$> tasks (step e s)).
Proof.
  intros Hs. destruct (makes_id e s) as [n|] eqn:He.
  - rewrite (step_makes_id _ _ _ He). apply Forall_cons.
    split; [apply Number_toString_truthy|done].
  - apply step_makes_none in He. apply Forall_forall.
    intros i Hi. eapply Forall_forall in Hs; [done|].
    by eapply elem_of_sublist.
Qed.

Lemma run_keeps_truthy_ids es s :
  Forall (λ i, truthy i = true) (id <$> tasks s) →
  Forall (λ i, truthy i = true) (id <$> tasks (run es s)).
Proof.
  revert s. induction es as [|e es IH]; intros s Hs; [done|].
  rewrite run_cons. by apply IH, step_keeps_truthy_ids.
Qed.

End Editable.

(** X6. Every task can be edited.  In a store reached from one whose ids are
    non-empty strings, opening an edit on a task of the store puts its text in
    the edit box, and saving a text that does not trim to the empty string
    gives that task the trimmed text, keeps the other tasks and the length,
    and closes the edit: the guard of [saveEdit] on [editingId] never gets in
    the way of an id made by [addTask]. *)
Theorem every_task_can_be_edited (es : list Event) (s : State) (k : nat)
  (task : Task) (x : jsstring) :
  Forall (λ i, truthy i = true) (id <$> tasks s) →
  tasks (run es s) !! k = Some task →
  trim x ≠ [] →
  let opened := (startEditing (id task) (text task) (run es s)).1 in
  editingText opened = text task
  ∧ tasks (commitEdit x opened) !! k
    = Some {| id := id task; text := trim x; completed := completed task;
              createdAt := createdAt task |}
  ∧ length (tasks (commitEdit x opened)) = length (tasks (run es s))
  ∧ (∀ j t, tasks (run es s) !! j = Some t → id t ≠ id task →
            tasks (commitEdit x opened) !! j = Some t)
  ∧ editingId (commitEdit x opened) = None.
Proof.
  intros Hids Hk Hx opened.
  assert (truthy (id task) = true) as Hid.
  { apply run_keeps_truthy_ids with (es := es) in Hids.
    eapply Forall_lookup_1 in Hids; [done|].
    by rewrite list_lookup_fmap, Hk. }
  split; [done|].
  change (commitEdit x opened) with (saveEdit (setEditingText x opened)).1.
  rewrite (saveEdit_commit _ (id task)) by done. simpl.
  split; [|split; [|split; [|done]]].
  - rewrite list_lookup_fmap, Hk. simpl. by rewrite decide_True.
  - apply length_fmap.
  - intros j t Hj Hne. rewrite list_lookup_fmap, Hj. simpl.
    by rewrite decide_False by congruence.
Qed.

Lemma every_task_can_be_edited_witness :
  tasks (commitEdit (js " Buy six eggs ")
           (startEditing (js "1700000000002") (js "Buy eggs")
              (run one_by_one initial)).1) !! 0%nat
  = Some {| id := js "1700000000002"; text := trim (js " Buy six eggs ");
            completed := false; createdAt := DateAt 1700000000003 |}.
Proof.
  refine (proj1 (proj2 (every_task_can_be_edited one_by_one initial 0%nat
                          eggs_on_top (js " Buy six eggs ") _ _ _))).
  - apply Forall_nil_2.
  - reflexivity.
  - by vm_compute.
Defined.

(** X7. The Add button is disabled for the states in which [addTask] does
    nothing.  When it is disabled, [addTask] (which Enter still calls) returns
    the state as it is; when it is enabled, [addTask] makes the array one
    longer and empties the input, so that the button is disabled again. *)
Theorem add_button_follows_guard (s : State) (now_id now_created : Z) :
  (addDisabled (render s) = true → addTask now_id now_created s = (s, []))
  ∧ (addDisabled (render s) = false →
     length (tasks (addTask now_id now_created s).1) = S (length (tasks s))
     ∧ newTaskText (addTask now_id now_created s).1 = []
     ∧ addDisabled (render (addTask now_id now_created s).1) = true).
Proof.
  unfold render; simpl. split.
  - intros Hd%negb_true_iff. unfold addTask. by rewrite Hd.
  - intros Hd%negb_false_iff. unfold addTask. by rewrite Hd.
Qed.

Section Rows.
Implicit Types (s : State) (e : Event) (es : list Event).

Lemma row_keys s : row_key <$> rows (render s) = id <$> tasks s.
Proof.
  unfold render; simpl. rewrite <- list_fmap_compose.
  apply list_fmap_ext. intros ? task _. simpl. unfold render_row.
  by destruct (decide _).
Qed.

Lemma ShowRow_shown s i c x :
  ShowRow i c x ∈ rows (render s) →
  editingId s ≠ Some i
  ∧ ∃ task, task ∈ tasks s ∧ id task = i ∧ completed task = c
            ∧ text task = x.
Proof.
  unfold render; simpl.
  intros (task & Hrow & Hin)%list_elem_of_fmap. unfold render_row in Hrow.
  destruct (decide (editingId s = Some (id task))) as [|Hne]; [done|].
  injection Hrow as -> -> ->. split; [done|]. by exists task.
Qed.

Lemma EditRow_shown s k c v :
  EditRow k c v ∈ rows (render s) →
  editingId s = Some k ∧ v = editingText s
  ∧ ∃ task, task ∈ tasks s ∧ id task = k ∧ completed task = c.
Proof.
  unfold render; simpl.
  intros (task & Hrow & Hin)%list_elem_of_fmap. unfold render_row in Hrow.
  destruct (decide (editingId s = Some (id task))) as [Heq|]; [|done].
  injection Hrow as -> -> ->. split; [done|]. split; [done|]. by exists task.
Qed.

Lemma step_keeps_session e s :
  offered s e → session_on_task s → session_on_task (step e s).
Proof.
  intros Hoff Hs.
  destruct e; unfold step, handle; simpl; try done.
  - unfold addTask. destruct (truthy _); [|done].
    intros j Hj. simpl in *. right. by apply Hs.
  - intros j Hj. simpl in *.
    rewrite ids_fmap_keep; [by apply Hs|].
    intros task. by destruct (decide _).
  - destruct Hoff as (c & x & [Hne _]%ShowRow_shown).
    intros j Hj. simpl in *. specialize (Hs j Hj).
    apply list_elem_of_fmap in Hs as (task & -> & Hin).
    apply list_elem_of_fmap_2, list_elem_of_filter. split; [|done].
    intros Heq. apply Hne. by rewrite Hj, Heq.
  - destruct Hoff as (c & [_ (task & Hin & <- & _)]%ShowRow_shown).
    intros j [= <-]. simpl. by apply list_elem_of_fmap_2.
  - unfold saveEdit. destruct (_ && _); [|done]. by intros j.
Qed.

End Rows.

(** X8. Through the rendered component the edit in progress never loses its
    task.  Take a run from a store with distinct ids, in which the clock
    readings turned into ids are distinct and none renders as an id the store
    started with, so that the ids are distinct in every state of the run and
    every render has distinct keys.  A card under edit has no Delete button,
    so along events that the renders offer, [editingId] stays the id of a task
    of the store; and then a save that raises its "Task updated" toast has
    given a task the trimmed text of the edit box. *)
Theorem session_keeps_its_task (es : list Event) (s : State) :
  NoDup (id <$> tasks s) → NoDup (id_clock es s) →
  (∀ n, n ∈ id_clock es s → Number_toString n ∉ id <$> tasks s) →
  session_on_task s → offered_run s es →
  (∀ es1 es2, es = es1 ++ es2 → NoDup (id <$> tasks (run es1 s)))
  ∧ session_on_task (run es s)
  ∧ (∀ toasts s', saveEdit (run es s) = (s', toasts) → toasts ≠ [] →
       ∃ k task, tasks (run es s) !! k = Some task
                 ∧ tasks s' !! k
                   = Some {| id := id task;
                             text := trim (editingText (run es s));
                             completed := completed task;
                             createdAt := createdAt task |}).
Proof.
  intros Hnd Hclock Hfresh Hs Hoff. split.
  { intros es1 es2 ->. by apply (run_prefix_ids es1 es2). }
  clear Hnd Hclock Hfresh.
  assert (session_on_task (run es s)) as Hend.
  { revert s Hs Hoff. induction es as [|e es IH]; intros s Hs Hes; [done|].
    destruct Hes as [He Hes].
    rewrite run_cons. apply IH; [by apply step_keeps_session|done]. }
  split; [done|]. intros toasts s' Hsave Htoast.
  unfold saveEdit in Hsave.
  destruct (truthy (trim _)) eqn:Hx; [|by injection Hsave as <- <-].
  destruct (editingId (run es s)) as [i|] eqn:Hid;
    [|by injection Hsave as <- <-].
  simpl in Hsave. destruct (truthy i) eqn:Hi; [|by injection Hsave as <- <-].
  injection Hsave as <- <-.
  pose proof (Hend i Hid) as Hin.
  apply list_elem_of_fmap in Hin as (task & -> & Hin).
  apply list_elem_of_lookup in Hin as [k Hk].
  exists k, task. split; [done|]. simpl.
  rewrite list_lookup_fmap, Hk. simpl. by rewrite decide_True.
Qed.

Lemma session_keeps_its_task_witness :
  session_on_task (run edit_by_hand initial).
Proof.
  refine (proj1 (proj2 (session_keeps_its_task edit_by_hand initial
                          _ _ _ _ _))).
  - apply NoDup_nil_2.
  - refine (bool_decide_unpack _ _). vm_compute. exact I.
  - intros n _. simpl. apply not_elem_of_nil.
  - intros i Hi. discriminate Hi.
  - cbn [offered_run edit_by_hand]. repeat split.
    + exists false. apply (list_elem_of_lookup_2 _ 0%nat). reflexivity.
    + exists (js "1700000000000"), false, (js "Buy milk").
      apply (list_elem_of_lookup_2 _ 0%nat). reflexivity.
    + exists (js "1700000000000"), false, (js "Buy oat milk").
      apply (list_elem_of_lookup_2 _ 0%nat). reflexivity.
Defined.

(** By events that no render of the run offers, the edit can lose its task:
    after a delete of the task under edit, a save changes no task and still
    raises its toast. *)
Example save_after_delete_under_edit :
  let s := setEditingText (js "Buy oat milk") (run delete_under_edit initial) in
  tasks s = [] ∧ tasks (saveEdit s).1 = [] ∧ (saveEdit s).2 = [toast_updated].
Proof. vm_compute. done. Qed.

(** X9. In a store with pairwise distinct ids, an edit on a task of the store
    shows one edit box: the card at the position of the task holds the text of
    the edit box, and every other card shows its own task. *)
Theorem one_edit_box (s : State) (k : nat) (task : Task) :
  NoDup (id <$> tasks s) → tasks s !! k = Some task →
  editingId s = Some (id task) →
  rows (render s)
  = <[k := EditRow (id task) (completed task) (editingText s)]>
      ((λ t, ShowRow (id t) (completed t) (text t)) <$> tasks s).
Proof.
  intros Hnd Hk Hid. unfold render; simpl. apply list_eq. intros j.
  rewrite list_lookup_fmap.
  destruct (decide (k = j)) as [<-|Hkj].
  - rewrite list_lookup_insert_eq
      by (rewrite length_fmap; by eapply lookup_lt_Some).
    rewrite Hk. simpl. unfold render_row. by rewrite decide_True.
  - rewrite list_lookup_insert_ne, list_lookup_fmap by done.
    destruct (tasks s !! j) as [t|] eqn:Hj; [|done]. simpl.
    unfold render_row. rewrite decide_False; [done|].
    rewrite Hid. intros [= Ht]. apply Hkj.
    eapply (NoDup_lookup _ _ _ (id task) Hnd); rewrite list_lookup_fmap.
    + by rewrite Hk.
    + by rewrite Hj, Ht.
Qed.

Lemma one_edit_box_witness :
  rows (render editing_eggs)
  = [ EditRow (js "1700000000777") false (js "Buy eggs");
      ShowRow (js "1700000000000") false (js "Buy milk") ].
Proof.
  refine (one_edit_box editing_eggs 0%nat eggs _ _ _).
  - refine (bool_decide_unpack _ _). vm_compute. exact I.
  - reflexivity.
  - reflexivity.
Defined.

Section MountFacts.
Context {P : Platform}.

Lemma mount_tasks (storage : Storage) : (mount storage).1 = load storage.
Proof.
  unfold mount, load, load_effect.
  destruct (storage !! js "todos") as [savedTasks|]; [|done].
  destruct (truthy savedTasks); [|done].
  by destruct (parse_tasks savedTasks).
Qed.

Lemma object_toJSON_Task (task : Task) :
  object_toJSON (Task_object task) = Task_toJSON task.
Proof. done. Qed.

Lemma save_objects_tasks (tasks : list Task) (storage : Storage) :
  save_objects (Task_object <$> tasks) storage = save tasks storage.
Proof.
  unfold save_objects, save, save_effect. by rewrite <- list_fmap_compose.
Qed.

Lemma step_same_tasks e s :
  calls_setTasks e s = false → tasks (step e s) = tasks s.
Proof.
  destruct e; simpl; intros Hc; unfold step, handle; try done.
  - unfold addTask. by rewrite Hc.
  - unfold saveEdit. by rewrite Hc.
Qed.

End MountFacts.

(** X10. Mounting on a storage that cannot be read loses what was stored.
    When the ["todos"] entry is absent, empty, not JSON, not an array or an
    array with a [null] in it, the component starts with no task and its save
    effect writes the text of the empty array over the entry. *)
Theorem mount_overwrites_unreadable {P : Platform} (storage : Storage) :
  (∀ savedTasks l,
     storage !! js "todos" = Some savedTasks → savedTasks ≠ [] →
     JSON_parse savedTasks = Some (JArr l) → JNull ∈ l) →
  mount storage = ([], <[ js "todos" := JSON_stringify (JArr []) ]> storage).
Proof.
  intros Hbad. unfold mount, save_objects. simpl.
  destruct (storage !! js "todos") as [savedTasks|] eqn:Hget; [|done].
  destruct (truthy savedTasks) eqn:Hne; [|done].
  apply truthy_nonempty in Hne. unfold parse_tasks.
  destruct (JSON_parse savedTasks) as [[| | | |l|]|] eqn:Hparse; try done.
  by rewrite map_throwing_null by eauto.
Qed.

Lemma mount_overwrites_unreadable_witness :
  mount (P := Reference.engine) stored_garbage = ([], stored_empty).
Proof.
  rewrite (mount_overwrites_unreadable (P := Reference.engine) stored_garbage).
  - vm_compute. reflexivity.
  - unfold stored_garbage.
    intros savedTasks l [_ <-]%lookup_singleton_Some _ Hparse.
    vm_compute in Hparse. discriminate Hparse.
Defined.

Section SessionFacts.
Import Reference.

Local Abbreviation tasks_text l :=
  (stringify (JArr (Task_toJSON (P := engine) <$> l))).

Lemma mount_storage {P : Platform} (storage : Storage) :
  (mount storage).2 = save_objects (load storage) (save_objects [] storage).
Proof.
  unfold mount, load, load_effect, save_objects.
  destruct (storage !! js "todos") as [savedTasks|];
    [|by rewrite insert_insert_eq].
  destruct (truthy savedTasks); [|by rewrite insert_insert_eq].
  destruct (parse_tasks savedTasks); [done|by rewrite insert_insert_eq].
Qed.

Lemma load_saved_text (l : list Task) (storage : Storage) :
  storage !! js "todos" = Some (tasks_text l) →
  Forall (λ task, valid_date (createdAt task)) l →
  load (P := engine) storage = Task_object (P := engine) <$> l.
Proof.
  intros Hget Hvalid.
  rewrite <- (insert_id storage _ _ Hget).
  apply (load_save_reads_back (P := engine) l storage).
  - reflexivity.
  - apply parse_stringify_tasks.
  - eapply Forall_impl; [exact Hvalid|].
    intros task Hd. simpl in Hd.
    destruct (createdAt task) as [tv|]; [|done].
    by apply Date_parse_toISOString.
Qed.

Lemma mount_saved_text (l : list Task) (storage : Storage) :
  storage !! js "todos" = Some (tasks_text l) →
  Forall (λ task, valid_date (createdAt task)) l →
  mount (P := engine) storage = (Task_object (P := engine) <$> l, storage).
Proof.
  intros Hget Hvalid.
  rewrite (surjective_pairing (mount storage)).
  rewrite mount_tasks, mount_storage, (load_saved_text l) by done.
  f_equal. rewrite save_objects_tasks.
  unfold save, save_effect, save_objects.
  rewrite insert_insert_eq. by apply insert_id.
Qed.

Lemma step_keeps_valid_dates (e : Event) (s : State) :
  clock_valid e →
  Forall (λ task, valid_date (createdAt task)) (tasks s) →
  Forall (λ task, valid_date (createdAt task)) (tasks (step e s)).
Proof.
  intros He Hs. destruct e; unfold step, handle; simpl; try done.
  - unfold addTask. destruct (truthy _); [|done]. simpl.
    by apply Forall_cons.
  - apply Forall_fmap. eapply Forall_impl; [exact Hs|].
    intros task Ht. simpl. by destruct (decide _).
  - apply Forall_forall. intros task [_ Hin]%list_elem_of_filter.
    by eapply Forall_forall in Hs.
  - unfold saveEdit. destruct (_ && _); [|done]. simpl.
    apply Forall_fmap. eapply Forall_impl; [exact Hs|].
    intros task Ht. simpl. by destruct (decide _).
Qed.

Lemma session_invariant (es : list Event) :
  ∀ (s : State) (storage : Storage),
    storage !! js "todos" = Some (tasks_text (tasks s)) →
    Forall (λ task, valid_date (createdAt task)) (tasks s) →
    Forall clock_valid es →
    (session (P := engine) es (s, storage)).1 = run es s
    ∧ (session (P := engine) es (s, storage)).2 !! js "todos"
      = Some (tasks_text (tasks (run es s)))
    ∧ (∀ key, key ≠ js "todos" →
              (session (P := engine) es (s, storage)).2 !! key
              = storage !! key)
    ∧ Forall (λ task, valid_date (createdAt task)) (tasks (run es s)).
Proof.
  induction es as [|e es IH]; intros s storage Hget Hvalid Hclock; [done|].
  apply Forall_cons in Hclock as [He Hes].
  change (session (e :: es) (s, storage))
    with (session (P := engine) es (session_step e (s, storage))).
  rewrite run_cons. unfold session_step. simpl.
  pose proof (step_keeps_valid_dates e s He Hvalid) as Hvalid'.
  destruct (calls_setTasks e s) eqn:Hcall.
  - destruct (IH (step e s) (save (P := engine) (tasks (step e s)) storage))
      as (Hs & Hst & Hkeys & Hv); [apply lookup_insert_eq|done|done|].
    split; [done|]. split; [done|]. split; [|done].
    intros key Hkey. rewrite Hkeys by done. by apply lookup_insert_ne.
  - destruct (IH (step e s) storage) as (Hs & Hst & Hkeys & Hv);
      [by rewrite step_same_tasks|done|done|done].
Qed.

End SessionFacts.

(** X11. Tasks survive a reload.  Start with the storage holding the text of
    the task array, as a mount leaves it; after any sequence of events, each
    followed by the save effect when the task array changed, the storage holds
    under ["todos"] the text of the task array and is otherwise untouched, and
    a component mounted on it holds the same tasks and leaves it as it is.
    The dates must be valid: those in the store at the start and the clock
    readings of the adds. *)
Theorem tasks_survive_reload (es : list Event) (s : State)
  (storage : Storage) :
  storage !! js "todos"
  = Some (Reference.stringify
            (JArr (Task_toJSON (P := Reference.engine) <$> tasks s))) →
  Forall (λ task, valid_date (createdAt task)) (tasks s) →
  Forall clock_valid es →
  (session (P := Reference.engine) es (s, storage)).1 = run es s
  ∧ (∀ key, key ≠ js "todos" →
            (session (P := Reference.engine) es (s, storage)).2 !! key
            = storage !! key)
  ∧ mount (P := Reference.engine)
      (session (P := Reference.engine) es (s, storage)).2
    = (Task_object (P := Reference.engine) <$> tasks (run es s),
       (session (P := Reference.engine) es (s, storage)).2).
Proof.
  intros Hget Hvalid Hclock.
  destruct (session_invariant es s storage Hget Hvalid Hclock)
    as (Hs & Hst & Hkeys & Hv).
  split; [done|]. split; [done|]. by apply mount_saved_text.
Qed.

Lemma tasks_survive_reload_witness :
  mount (P := Reference.engine)
    (session (P := Reference.engine) one_by_one (initial, stored_empty)).2
  = (Task_object (P := Reference.engine) <$> tasks (run one_by_one initial),
     (session (P := Reference.engine) one_by_one (initial, stored_empty)).2).
Proof.
  refine (proj2 (proj2 (tasks_survive_reload one_by_one initial stored_empty
                          _ _ _))).
  - reflexivity.
  - apply Forall_nil_2.
  - repeat (apply Forall_cons; split; [by vm_compute|]). apply Forall_nil_2.
Defined.

(** X12. Staging leaves no trace.  Typing in either box, opening an edit and
    cancelling it never change the task array and never write to the storage;
    and a cancel after them leaves no edit open and an empty edit box. *)
Theorem staging_leaves_no_trace {P : Platform} (es : list Event) (s : State)
  (storage : Storage) :
  forallb is_staging es = true →
  tasks (run es s) = tasks s
  ∧ session es (s, storage) = (run es s, storage)
  ∧ editingId (run (es ++ [CancelEdit]) s) = None
  ∧ editingText (run (es ++ [CancelEdit]) s) = [].
Proof.
  intros Hes. split; [|split].
  - revert s Hes. induction es as [|e es IH]; intros s Hes; [done|].
    simpl in Hes. apply andb_prop in Hes as [He Hes].
    rewrite run_cons, (IH _ Hes). by destruct e.
  - revert s storage Hes.
    induction es as [|e es IH]; intros s storage Hes; [done|].
    simpl in Hes. apply andb_prop in Hes as [He Hes].
    change (session (e :: es) (s, storage))
      with (session es (session_step e (s, storage))).
    rewrite run_cons. unfold session_step.
    replace (calls_setTasks e (s, storage).1) with false by (by destruct e).
    apply IH, Hes.
  - unfold run. by rewrite foldl_app.
Qed.

Lemma staging_leaves_no_trace_witness :
  tasks (run change_of_mind editing_eggs) = tasks editing_eggs
  ∧ session (P := Reference.engine) change_of_mind (editing_eggs, stored_empty)
    = (run change_of_mind editing_eggs, stored_empty).
Proof.
  destruct (staging_leaves_no_trace (P := Reference.engine) change_of_mind
              editing_eggs stored_empty eq_refl) as (Htasks & Hsession & _).
  by split.
Defined.
